(** * interactsh client: a shallow embedding of pkg/client/client.go

    The development follows the layout of the Go file.  Values the client
    obtains from its collaborators (URL parser, tink keysets, JSON codec,
    HTTP transport, the remote server) are taken from an environment
    record; everything the client itself computes is a Rocq function.

    - 32-bit unsigned integers are [Z] with the wrap-around written out;
    - byte slices are [list Z] with every element in [0, 256);
    - Go strings are [string];
    - a Go [error] value is [option error], [None] being [nil];
    - process-wide state (the identifier counter, the requests put on the
      wire, the callback invocations) is threaded explicitly. *)

From Stdlib Require Import ZArith List String Ascii Lia Bool.
From stdpp Require Import base tactics option list relations strings.

Local Open Scope string_scope.
Local Open Scope list_scope.
Local Open Scope Z_scope.

(** ** Go primitives *)

Module Go.

Definition bytes := list Z.

Definition is_byte (b : Z) : Prop := 0 <= b < 256.

(** Conversion [uint32(x)] of an integer: the low 32 bits. *)
Definition uint32 (x : Z) : Z := x mod 2 ^ 32.

(** Conversion [byte(x)]: the low 8 bits. *)
Definition byte (x : Z) : Z := x mod 2 ^ 8.

(** [atomic.AddUint32(&addr, delta)]: adds with wrap-around and returns
    the new value; the cell holds the same new value. *)
Definition atomic_AddUint32 (cell delta : Z) : Z := uint32 (cell + delta).

(** [binary.BigEndian.PutUint32(b[0:4], v)]: the four bytes written. *)
Definition BigEndian_PutUint32 (v : Z) : bytes :=
  [ byte (Z.shiftr v 24); byte (Z.shiftr v 16); byte (Z.shiftr v 8); byte v ].

(** Errors of github.com/pkg/errors: a root cause or an annotated error. *)
Inductive error : Type :=
| errorString (msg : string)
| withMessage (cause : error) (msg : string).

(** [errors.Wrap(err, message)]: "If err is nil, Wrap returns nil." *)
Definition errors_Wrap (err : option error) (message : string) : option error :=
  match err with
  | None => None
  | Some e => Some (withMessage e message)
  end.

(** A Go call returning [(T, error)]. *)
Definition result (A : Type) : Type := (A + error)%type.

(** A computation that either completes or panics. *)
Inductive outcome (A : Type) : Type :=
| Done (a : A)
| Panic (msg : string).
Arguments Done {A} a.
Arguments Panic {A} msg.

(** A channel object: made open, closed at most once. *)
Inductive chan_state : Type := ChanOpen | ChanClosed.

End Go.

Import Go.

(** ** zbase32.StdEncoding.EncodeToString (gopkg.in/corvus-ch/zbase32.v1)

    The character loop of the package: five bits per output character, most
    significant bit first, taken from the current byte [b0] and, when the
    group straddles a byte boundary, from the next byte [b1] (zero past the
    end of the input). *)

Module zbase32.

Definition StdAlphabet : string := "ybndrfg8ejkmcpqxot1uwisza345h769".

(** [alphabet[char]] *)
Definition alphabet_at (char : Z) : ascii :=
  match String.get (Z.to_nat char) StdAlphabet with
  | Some a => a
  | None => "000"%char
  end.

(** The five-bit group that starts [offset] bits into [b0]. *)
Definition char_at (offset b0 b1 : Z) : Z :=
  if offset <? 4 then
    Z.shiftr (Z.land b0 (byte (Z.shiftl 31 (3 - offset)))) (3 - offset)
  else
    Z.lor
      (byte (Z.shiftl (Z.land b0 (Z.shiftr 31 (offset - 3))) (offset - 3)))
      (Z.shiftr (Z.land b1 (byte (Z.shiftl 255 (11 - offset)))) (11 - offset)).

(** [for i := 0; len(src) > 0; i += 5 { ... }]: one output index per
    iteration; the source advances when the group used up [b0]. *)
Fixpoint encode_loop (fuel : nat) (i : Z) (src : bytes) : list Z :=
  match src with
  | [] => []
  | b0 :: rest =>
      match fuel with
      | O => []
      | S fuel' =>
          let b1 := match rest with b :: _ => b | [] => 0 end in
          let offset := i mod 8 in
          char_at offset b0 b1
            :: encode_loop fuel' (i + 5) (if 2 <? offset then rest else src)
      end
  end.

(** [EncodedLen(n)]: the size of the destination buffer. *)
Definition EncodedLen (n : nat) : nat := Nat.div (n * 8 + 4) 5.

(** The indices into the alphabet for [src].  The loop runs once per
    destination byte. *)
Definition encode (src : bytes) : list Z :=
  encode_loop (EncodedLen (length src)) 0 src.

Definition EncodeToString (src : bytes) : string :=
  string_of_list_ascii (map alphabet_at (encode src)).

End zbase32.

(** ** Wire types of pkg/server and of the HTTP transport *)

Module server.

(** Modelled from the spec: the register record of pkg/server, which the
    client imports; section 3 of the specification gives its fields,
    [{publicKey, secretKey, correlationID}]. *)
Record RegisterRequest : Type := {
  reg_PublicKey : bytes;
  reg_SecretKey : string;
  reg_CorrelationID : string
}.

(** Modelled from the spec: the deregister record of pkg/server,
    [{correlationID}]. *)
Record DeregisterRequest : Type := {
  dereg_CorrelationID : string
}.

(** Modelled from the spec: the poll response of pkg/server, an ordered
    sequence of ciphertext blobs. *)
Record PollResponse : Type := {
  Data : list bytes
}.

End server.

Module http.

Record Request : Type := {
  Method : string;
  ReqURL : string;
  ReqBody : option bytes;
  ContentLength : Z
}.

Definition set_ContentLength (req : Request) (n : Z) : Request :=
  {| Method := Method req; ReqURL := ReqURL req;
     ReqBody := ReqBody req; ContentLength := n |}.

Record Response : Type := {
  StatusCode : Z;
  Body : bytes
}.

End http.

Import server http.

(** [*url.URL]: the two views of a parsed address the client uses. *)
Record url_URL : Type := {
  url_String : string;
  Host : string
}.

(** ** The collaborators

    What the packages outside the client hand back.  Random draws
    ([uuid.New], [xid.New], the fresh keyset) are the values of one run;
    the transport's answer may depend on everything sent so far. *)

Record Env : Type := {
  Interaction : Type;
  KeysetHandle : Type;
  Keyset : Type;
  HybridDecrypt : Type;
  url_Parse : string -> result url_URL;
  uuid_New_String : string;
  xid_New_String : string;
  keyset_NewHandle : result KeysetHandle;
  hybrid_NewHybridDecrypt : KeysetHandle -> result HybridDecrypt;
  Decrypt : HybridDecrypt -> bytes -> result bytes;
  Public : KeysetHandle -> result KeysetHandle;
  insecurecleartextkeyset_Write : KeysetHandle -> result Keyset;
  XXX_Marshal : Keyset -> result bytes;
  Marshal_RegisterRequest : RegisterRequest -> result bytes;
  Marshal_DeregisterRequest : DeregisterRequest -> result bytes;
  NewRequest_err : string -> string -> option error;
  httpClient_Do : list Request -> Request -> result Response;
  Decode_PollResponse : bytes -> result PollResponse;
  Unmarshal_Interaction : bytes -> result Interaction
}.

(** [InteractionCallback]: a function value, known by its name; what it
    does is observed as the log of its invocations. *)
Definition InteractionCallback : Type := nat.

Section Client.

Context (E : Env).

(** [type Client struct]; [httpClient] is the environment's transport. *)
Record Client : Type := {
  correlationID : string;
  secretKey : string;
  serverURL : url_URL;
  decrypter : option (HybridDecrypt E);
  quitChan : option chan_state;
  persistentSession : bool
}.

Record Options : Type := {
  ServerURL : string;
  PersistentSession : bool
}.

(** The state of the process that the client reads or writes. *)
Record World : Type := {
  objectIDCounter : Z;
  wire : list Request;
  fired : list (InteractionCallback * Interaction E)
}.

Definition send (req : Request) (w : World) : World :=
  {| objectIDCounter := objectIDCounter w;
     wire := wire w ++ [req];
     fired := fired w |}.

Definition invoke (callback : InteractionCallback) (i : Interaction E)
    (w : World) : World :=
  {| objectIDCounter := objectIDCounter w;
     wire := wire w;
     fired := fired w ++ [(callback, i)] |}.

(** [retryablehttp.NewRequest(method, url, body)] *)
Definition NewRequest (method url : string) (body : option bytes)
    : result Request :=
  match NewRequest_err E method url with
  | Some err => inr err
  | None => inl {| Method := method; ReqURL := url;
                   ReqBody := body; ContentLength := 0 |}
  end.

(** *** generateRSAKeyPair *)

Definition set_decrypter (c : Client) (hd : HybridDecrypt E) : Client :=
  {| correlationID := correlationID c; secretKey := secretKey c;
     serverURL := serverURL c; decrypter := Some hd;
     quitChan := quitChan c; persistentSession := persistentSession c |}.

Definition register_request (c : Client) (key : bytes) : RegisterRequest :=
  {| reg_PublicKey := key;
     reg_SecretKey := secretKey c;
     reg_CorrelationID := correlationID c |}.

Definition generateRSAKeyPair (c : Client) (w : World)
    : Client * option error * World :=
  match keyset_NewHandle E with
  | inr err => (c, errors_Wrap (Some err) "could not generate encryption keyset", w)
  | inl khPriv =>
  match hybrid_NewHybridDecrypt E khPriv with
  | inr err => (c, errors_Wrap (Some err) "could not create new decrypter", w)
  | inl hd =>
  let c := set_decrypter c hd in
  match Public E khPriv with
  | inr err => (c, errors_Wrap (Some err) "could not get keyset public-key", w)
  | inl khPub =>
  match insecurecleartextkeyset_Write E khPub with
  | inr err => (c, errors_Wrap (Some err) "could not write keyset public key", w)
  | inl keyset =>
  (* [keyset] is what [exportedPub.Read()] returns after the write; the
     error of [Read] is overwritten by the next assignment *)
  match XXX_Marshal E keyset with
  | inr err => (c, errors_Wrap (Some err) "could not marshal public key", w)
  | inl key =>
  match Marshal_RegisterRequest E (register_request c key) with
  | inr err => (c, errors_Wrap (Some err) "could not marshal register request", w)
  | inl data =>
  match NewRequest "POST" (url_String (serverURL c) +:+ "/register") (Some data) with
  | inr err => (c, errors_Wrap (Some err) "could not create new request", w)
  | inl req =>
  let req := set_ContentLength req (Z.of_nat (length data)) in
  match httpClient_Do E (wire w) req with
  | inr e => (c, errors_Wrap (Some e) "could not make register request", send req w)
  | inl resp =>
      (* past [if err != nil { return ... }] the variable [err] is nil *)
      let err : option error := None in
      if negb (StatusCode resp =? 200)
      then (c, errors_Wrap err "could not register to server", send req w)
      else (c, None, send req w)
  end end end end end end end end.

(** *** New *)

Definition New (options : Options) (w : World)
    : option Client * option error * World :=
  match url_Parse E (ServerURL options) with
  | inr err => (None, errors_Wrap (Some err) "could not parse server URL", w)
  | inl parsed =>
      let client :=
        {| serverURL := parsed;
           secretKey := uuid_New_String E;
           correlationID := xid_New_String E;
           persistentSession := PersistentSession options;
           decrypter := None;
           quitChan := None |} in
      match generateRSAKeyPair client w with
      | (_, Some err, w') => (None, Some err, w')
      | (client', None, w') => (Some client', None, w')
      end
  end.

(** *** getInteractions *)

Definition poll_address (c : Client) : string :=
  url_String (serverURL c) +:+ "/poll?id=" +:+ correlationID c
    +:+ "&secret=" +:+ secretKey c.

(** [for _, data := range response.Data { ... }] *)
Fixpoint deliver (c : Client) (callback : InteractionCallback)
    (data : list bytes) (w : World) : outcome World :=
  match data with
  | [] => Done w
  | blob :: rest =>
      match decrypter c with
      | None => Panic "invalid memory address or nil pointer dereference"
      | Some hd =>
          match Decrypt E hd blob with
          | inr _ => deliver c callback rest w
          | inl plaintext =>
              match Unmarshal_Interaction E plaintext with
              | inr _ => deliver c callback rest w
              | inl interaction =>
                  deliver c callback rest (invoke callback interaction w)
              end
          end
      end
  end.

Definition getInteractions (c : Client) (callback : InteractionCallback)
    (w : World) : outcome World :=
  match NewRequest "GET" (poll_address c) None with
  | inr _ => Done w
  | inl req =>
      match httpClient_Do E (wire w) req with
      | inr _ => Done (send req w)
      | inl resp =>
          if negb (StatusCode resp =? 200) then Done (send req w)
          else
            match Decode_PollResponse E (Body resp) with
            | inr _ => Done (send req w)
            | inl response =>
                deliver c callback (Data response) (send req w)
            end
      end
  end.

(** *** Close *)

Definition Close (c : Client) (w : World) : option error * World :=
  if negb (persistentSession c) then
    let register := {| dereg_CorrelationID := correlationID c |} in
    match Marshal_DeregisterRequest E register with
    | inr err => (errors_Wrap (Some err) "could not marshal deregister request", w)
    | inl data =>
    match NewRequest "POST" (url_String (serverURL c) +:+ "/deregister") (Some data) with
    | inr err => (errors_Wrap (Some err) "could not create new request", w)
    | inl req =>
    let req := set_ContentLength req (Z.of_nat (length data)) in
    match httpClient_Do E (wire w) req with
    | inr e => (errors_Wrap (Some e) "could not make deregister request", send req w)
    | inl resp =>
        (* past [if err != nil { return ... }] the variable [err] is nil *)
        let err : option error := None in
        if negb (StatusCode resp =? 200)
        then (errors_Wrap err "could not deregister to server", send req w)
        else (None, send req w)
    end end end
  else (None, w).

(** *** URL *)

Definition tick_counter (i : Z) (w : World) : World :=
  {| objectIDCounter := i; wire := wire w; fired := fired w |}.

(** [now] is the reading [time.Now().Unix()] of the call. *)
Definition URL (c : Client) (now : Z) (w : World) : string * World :=
  let i := atomic_AddUint32 (objectIDCounter w) 1 in
  let random := BigEndian_PutUint32 (uint32 now) ++ BigEndian_PutUint32 i in
  (correlationID c +:+ zbase32.EncodeToString random +:+ "." +:+ ""
     +:+ Host (serverURL c),
   tick_counter i w).

End Client.

Arguments correlationID {E} c.
Arguments secretKey {E} c.
Arguments serverURL {E} c.
Arguments decrypter {E} c.
Arguments quitChan {E} c.
Arguments persistentSession {E} c.
Arguments objectIDCounter {E} w.
Arguments wire {E} w.
Arguments fired {E} w.
Arguments send {E} req w.
Arguments invoke {E} callback i w.
Arguments tick_counter {E} i w.
Arguments set_decrypter {E} c hd.
Arguments register_request {E} c key.
Arguments generateRSAKeyPair {E} c w.
Arguments poll_address {E} c.
Arguments deliver {E} c callback data w.
Arguments getInteractions {E} c callback w.
Arguments Close {E} c w.
Arguments URL {E} c now w.

(** ** The polling lifecycle

    [StartPolling] makes a ticker and a quit channel and starts a goroutine
    that loops over a [select]; [StopPolling] closes the channel held in the
    client.  The goroutine reads [c.quitChan] each time it enters the
    [select], so the channel lives in the client record shared by the caller
    and the goroutines.  The caller's operations are functions on the
    process; the timer and the goroutines move by the relation [step]. *)

Section Polling.

Context (E : Env).

(** [*time.Ticker]: a channel [C] of capacity one and a stopped flag. *)
Record Ticker : Type := {
  C_full : bool;
  stopped : bool
}.

(** Where a polling goroutine stands. *)
Inductive pc : Type :=
| AtSelect            (* blocked in, or about to enter, the select *)
| InGetInteractions   (* took a tick, inside getInteractions *)
| Returned.           (* took the quit case and returned *)

Record Goroutine : Type := {
  ticker : Ticker;
  callback : InteractionCallback;
  at_pc : pc
}.

Record Process : Type := {
  client : Client E;
  goroutines : list Goroutine;
  world : World E;
  panicked : option string
}.

Definition set_quitChan (c : Client E) (ch : option chan_state) : Client E :=
  {| correlationID := correlationID c; secretKey := secretKey c;
     serverURL := serverURL c; decrypter := decrypter c;
     quitChan := ch; persistentSession := persistentSession c |}.

(** [StartPolling(duration, callback)]; [time.NewTicker] panics on a
    non-positive duration. *)
Definition StartPolling (duration : Z) (cb : InteractionCallback)
    (p : Process) : outcome Process :=
  if duration <=? 0 then Panic "non-positive interval for NewTicker"
  else
    Done {| client := set_quitChan (client p) (Some ChanOpen);
            goroutines := goroutines p ++
              [ {| ticker := {| C_full := false; stopped := false |};
                   callback := cb;
                   at_pc := AtSelect |} ];
            world := world p;
            panicked := panicked p |}.

(** [close(ch)] of the Go language: closing a nil channel and closing a
    closed channel both panic. *)
Definition close (ch : option chan_state) : outcome (option chan_state) :=
  match ch with
  | None => Panic "close of nil channel"
  | Some ChanClosed => Panic "close of closed channel"
  | Some ChanOpen => Done (Some ChanClosed)
  end.

(** [StopPolling()] *)
Definition StopPolling (p : Process) : outcome Process :=
  match close (quitChan (client p)) with
  | Panic msg => Panic msg
  | Done ch =>
      Done {| client := set_quitChan (client p) ch;
              goroutines := goroutines p;
              world := world p;
              panicked := panicked p |}
  end.

Definition set_goroutine (k : nat) (g : Goroutine) (p : Process) : Process :=
  {| client := client p;
     goroutines := <[k := g]> (goroutines p);
     world := world p;
     panicked := panicked p |}.

(** One move of the timer or of a goroutine of a process that has not
    panicked.  A [select] proceeds with any case that is ready: when a tick
    is buffered and the quit channel is closed, either case may be taken. *)
Inductive step : Process -> Process -> Prop :=
| step_timer p k g :
    (* the runtime timer delivers a tick into [ticker.C]; a tick that
       finds the buffer full is dropped *)
    panicked p = None ->
    goroutines p !! k = Some g ->
    stopped (ticker g) = false ->
    step p (set_goroutine k
              {| ticker := {| C_full := true; stopped := false |};
                 callback := callback g; at_pc := at_pc g |} p)
| step_select_tick p k g :
    (* [case <-ticker.C:] *)
    panicked p = None ->
    goroutines p !! k = Some g ->
    at_pc g = AtSelect ->
    C_full (ticker g) = true ->
    step p (set_goroutine k
              {| ticker := {| C_full := false; stopped := stopped (ticker g) |};
                 callback := callback g; at_pc := InGetInteractions |} p)
| step_select_quit p k g :
    (* [case <-c.quitChan:]: a receive from a closed channel is ready *)
    panicked p = None ->
    goroutines p !! k = Some g ->
    at_pc g = AtSelect ->
    quitChan (client p) = Some ChanClosed ->
    step p (set_goroutine k
              {| ticker := {| C_full := C_full (ticker g); stopped := true |};
                 callback := callback g; at_pc := Returned |} p)
| step_getInteractions p k g w' :
    (* [c.getInteractions(callback)], then back to the select *)
    panicked p = None ->
    goroutines p !! k = Some g ->
    at_pc g = InGetInteractions ->
    getInteractions (client p) (callback g) (world p) = Done w' ->
    step p {| client := client p;
              goroutines :=
                <[k := {| ticker := ticker g; callback := callback g;
                          at_pc := AtSelect |}]> (goroutines p);
              world := w';
              panicked := None |}
| step_getInteractions_panic p k g msg :
    panicked p = None ->
    goroutines p !! k = Some g ->
    at_pc g = InGetInteractions ->
    getInteractions (client p) (callback g) (world p) = Panic msg ->
    step p {| client := client p;
              goroutines := goroutines p;
              world := world p;
              panicked := Some msg |}.

(** A process right after [New] returned [c]: no goroutine yet. *)
Definition fresh (c : Client E) (w : World E) : Process :=
  {| client := c; goroutines := []; world := w; panicked := None |}.

Definition set_world (p : Process) (w : World E) : Process :=
  {| client := client p; goroutines := goroutines p;
     world := w; panicked := panicked p |}.

Definition crash (p : Process) (msg : string) : Process :=
  {| client := client p; goroutines := goroutines p;
     world := world p; panicked := Some msg |}.

(** One call of an exported method by the owner of the client. *)
Inductive call : Process -> Process -> Prop :=
| call_URL p now :
    panicked p = None ->
    call p (set_world p (snd (URL (client p) now (world p))))
| call_StartPolling p duration cb p' :
    panicked p = None ->
    StartPolling duration cb p = Done p' ->
    call p p'
| call_StartPolling_panic p duration cb msg :
    panicked p = None ->
    StartPolling duration cb p = Panic msg ->
    call p (crash p msg)
| call_StopPolling p p' :
    panicked p = None ->
    StopPolling p = Done p' ->
    call p p'
| call_StopPolling_panic p msg :
    panicked p = None ->
    StopPolling p = Panic msg ->
    call p (crash p msg)
| call_Close p :
    panicked p = None ->
    call p (set_world p (snd (Close (client p) (world p)))).

(** Anything that can happen next in the life of a client. *)
Definition transition (p p' : Process) : Prop := call p p' \/ step p p'.

End Polling.

Arguments client {E} p.
Arguments goroutines {E} p.
Arguments world {E} p.
Arguments panicked {E} p.
Arguments set_quitChan {E} c ch.
Arguments StartPolling {E} duration cb p.
Arguments StopPolling {E} p.
Arguments set_goroutine {E} k g p.
Arguments step {E} _ _.
Arguments step_timer {E} p k g _ _ _.
Arguments step_select_tick {E} p k g _ _ _ _.
Arguments step_select_quit {E} p k g _ _ _ _.
Arguments step_getInteractions {E} p k g w' _ _ _ _.
Arguments step_getInteractions_panic {E} p k g msg _ _ _ _.
Arguments fresh {E} c w.
Arguments set_world {E} p w.
Arguments crash {E} p msg.
Arguments call {E} _ _.
Arguments transition {E} _ _.

(** ** Definitions used by the statements *)

(** The integers below [n], for exhaustive checks. *)
Definition below (n : nat) : list Z := map Z.of_nat (seq 0 n).

Definition all_bytes : list Z := below 256.

(** The five bits at [offset] of the 16-bit window [b0 b1], as arithmetic:
    [k] is two to the number of window bits to the right of the group. *)
Definition win (k b0 b1 : Z) : Z := ((b0 * 256 + b1) / k) mod 32.

Definition char_at_window (offset b0 b1 : Z) : Z :=
  win (2 ^ (11 - offset)) b0 b1.

(** The two halves of a group that straddles a byte boundary. *)
Definition low_bits (offset b0 : Z) : Z :=
  byte (Z.shiftl (Z.land b0 (Z.shiftr 31 (offset - 3))) (offset - 3)).

Definition high_bits (offset b1 : Z) : Z :=
  Z.shiftr (Z.land b1 (byte (Z.shiftl 255 (11 - offset)))) (11 - offset).

(** Exhaustive checks, byte by byte, of the bit operations against
    division and remainder. *)
Definition inside_agrees (offset : Z) : bool :=
  forallb (fun b0 =>
    zbase32.char_at offset b0 0 =? (b0 / 2 ^ (3 - offset)) mod 32) all_bytes.

Definition straddle_agrees (offset : Z) : bool :=
  forallb (fun b =>
    (low_bits offset b =? (b mod 2 ^ (8 - offset)) * 2 ^ (offset - 3))
    && (high_bits offset b =? b / 2 ^ (11 - offset))) all_bytes.

Definition lor_agrees (k : Z) : bool :=
  forallb (fun x =>
    forallb (fun y =>
      if (x mod 2 ^ k =? 0) && (y <? 2 ^ k) then Z.lor x y =? x + y else true)
      (below 32))
    (below 32).

(** Position of a character in the alphabet. *)
Fixpoint index_in (a : ascii) (s : string) (i : Z) : option Z :=
  match s with
  | EmptyString => None
  | String b s' => if Ascii.eqb a b then Some i else index_in a s' (i + 1)
  end.

Definition alphabet_index (a : ascii) : option Z :=
  index_in a zbase32.StdAlphabet 0.


(** The number a byte sequence denotes, most significant byte first. *)
Definition be_combine (bs : bytes) : Z :=
  fold_left (fun acc b => acc * 256 + b) bs 0.

(** The eight bytes [URL] encodes, for a clock reading and a counter value. *)
Definition random_bytes (now i : Z) : bytes :=
  BigEndian_PutUint32 (uint32 now) ++ BigEndian_PutUint32 i.

(** The identifier [URL] returns when the counter reaches [i]. *)
Definition identifier {E} (c : Client E) (now i : Z) : string :=
  correlationID c +:+ zbase32.EncodeToString (random_bytes now i)
    +:+ "." +:+ Host (serverURL c).

(** A run of calls to [URL], each by some client at some clock reading,
    in the order they take the counter. *)
Fixpoint URLs {E} (calls : list (Client E * Z)) (w : World E)
    : list string * World E :=
  match calls with
  | [] => ([], w)
  | (c, now) :: rest =>
      let '(u, w1) := URL c now w in
      let '(us, w2) := URLs rest w1 in
      (u :: us, w2)
  end.

(** The poll request of a client: [GET /poll?id={correlationID}&secret={secretKey}]
    on the server address, without a body. *)
Definition poll_request {E} (c : Client E) : Request :=
  {| Method := "GET";
     ReqURL := url_String (serverURL c) +:+ "/poll?id=" +:+ correlationID c
                 +:+ "&secret=" +:+ secretKey c;
     ReqBody := None;
     ContentLength := 0 |}.

(** A [POST] of [data] to [path] on the server address. *)
Definition post_request {E} (c : Client E) (path : string) (data : bytes)
    : Request :=
  {| Method := "POST";
     ReqURL := url_String (serverURL c) +:+ path;
     ReqBody := Some data;
     ContentLength := Z.of_nat (length data) |}.

(** The requests a constructed client may still send: its poll request, or
    a [POST /deregister] whose body marshals the record of its correlation
    id. *)
Definition poll_or_deregister (E : Env) (c : Client E) (req : Request) : Prop :=
  req = poll_request c \/
  exists data,
    Marshal_DeregisterRequest E {| dereg_CorrelationID := correlationID c |}
      = inl data /\
    req = post_request c "/deregister" data.

(** Same identity: correlation id, secret and server address. *)
Definition same_identity {E} (c c' : Client E) : Prop :=
  correlationID c' = correlationID c /\
  secretKey c' = secretKey c /\
  serverURL c' = serverURL c.

(** The ways a poll tick fails before any blob is looked at. *)
Definition poll_fails (E : Env) (c : Client E) (w : World E) : Prop :=
  NewRequest_err E "GET" (ReqURL (poll_request c)) <> None
  \/ (exists e, httpClient_Do E (wire w) (poll_request c) = inr e)
  \/ (exists resp, httpClient_Do E (wire w) (poll_request c) = inl resp /\
        (StatusCode resp <> 200 \/
         exists e, Decode_PollResponse E (Body resp) = inr e)).

(** What one blob decodes to under a decrypter: the interaction, when the
    blob decrypts and its plaintext parses. *)
Definition decoded (E : Env) (hd : HybridDecrypt E) (blob : bytes)
    : option (Interaction E) :=
  match Decrypt E hd blob with
  | inl plaintext =>
      match Unmarshal_Interaction E plaintext with
      | inl interaction => Some interaction
      | inr _ => None
      end
  | inr _ => None
  end.


(** A ticker is stopped exactly when its goroutine has returned. *)
Definition tickers_follow (gs : list Goroutine) : Prop :=
  Forall (fun g => at_pc g = Returned <-> stopped (ticker g) = true) gs.

(** ** A concrete environment

    Toy collaborators on which the operations run by computation: a key is
    a number, a ciphertext blob is the key followed by one payload byte, a
    poll body is a sequence of such blobs, an interaction is a payload
    byte below 128. *)

Module demo.

Definition bytes_of_string (s : string) : bytes :=
  map (fun a => Z.of_N (N_of_ascii a)) (list_ascii_of_string s).

Definition host_of (s : string) : string :=
  if String.prefix "https://" s
  then String.substring 8 (String.length s - 8) s
  else "".

Definition parse (s : string) : result url_URL :=
  match s with
  | String ":" _ => inr (errorString "missing protocol scheme")
  | _ => inl {| url_String := s; Host := host_of s |}
  end.

Fixpoint blobs (body : bytes) : list bytes :=
  match body with
  | k :: x :: rest => [k; x] :: blobs rest
  | _ => []
  end.

Definition decrypt (key : Z) (blob : bytes) : result bytes :=
  match blob with
  | [k; x] => if k =? key then inl [x]
              else inr (errorString "decryption failed")
  | _ => inr (errorString "ciphertext too short")
  end.

Definition unmarshal (plaintext : bytes) : result Z :=
  match plaintext with
  | [x] => if x <? 128 then inl x else inr (errorString "invalid character")
  | _ => inr (errorString "unexpected end of input")
  end.

Definition decode (body : bytes) : result PollResponse :=
  match body with
  | [] => inr (errorString "EOF")
  | _ => inl {| Data := blobs body |}
  end.

(** The environment around a given transport-and-server behaviour and a
    given request validator. *)
Definition env (check : string -> string -> option error)
    (do : list Request -> Request -> result Response) : Env :=
  {| Interaction := Z;
     KeysetHandle := Z;
     Keyset := Z;
     HybridDecrypt := Z;
     url_Parse := parse;
     uuid_New_String := "6ba7b810-9dad-41d1-80b4-00c04fd430c8";
     xid_New_String := "9m4e2mr0ui3e8a215n4g";
     keyset_NewHandle := inl 7;
     hybrid_NewHybridDecrypt := fun kh => inl kh;
     Decrypt := decrypt;
     Public := fun kh => inl (kh + 1000);
     insecurecleartextkeyset_Write := fun kh => inl kh;
     XXX_Marshal := fun ks => inl [byte (Z.shiftr ks 8); byte ks];
     Marshal_RegisterRequest := fun r =>
       inl (reg_PublicKey r ++ bytes_of_string (reg_SecretKey r)
              ++ bytes_of_string (reg_CorrelationID r));
     Marshal_DeregisterRequest := fun r =>
       inl (bytes_of_string (dereg_CorrelationID r));
     NewRequest_err := check;
     httpClient_Do := do;
     Decode_PollResponse := decode;
     Unmarshal_Interaction := unmarshal |}.

Definition accept (method url : string) : option error := None.

Definition reject (method url : string) : option error :=
  Some (errorString "invalid URL escape").

(** A server that answers 200 to everything; a poll brings one blob under
    another key and one blob under the client's key. *)
Definition server_ok (sent : list Request) (req : Request) : result Response :=
  inl {| StatusCode := 200; Body := [0; 5; 7; 9] |}.

(** A server that refuses everything with 400 Bad Request. *)
Definition server_400 (sent : list Request) (req : Request) : result Response :=
  inl {| StatusCode := 400; Body := [] |}.

(** A server that answers with a body that is not a poll response. *)
Definition server_garbled (sent : list Request) (req : Request)
    : result Response :=
  inl {| StatusCode := 200; Body := [] |}.

(** A transport that cannot reach the server. *)
Definition unreachable (sent : list Request) (req : Request)
    : result Response :=
  inr (errorString "dial tcp: connection refused").

Definition ok : Env := env accept server_ok.

Definition refusing : Env := env accept server_400.

Definition garbling : Env := env accept server_garbled.

Definition offline : Env := env accept unreachable.

Definition rejecting : Env := env reject server_ok.

Definition options : Options :=
  {| ServerURL := "https://interact.sh"; PersistentSession := false |}.

Definition world0 (E : Env) : World E :=
  {| objectIDCounter := 0; wire := []; fired := [] |}.

(** The client [New] returns on [options] when every step succeeds. *)
Definition client_of (E : Env) (HybridDecrypt_key : HybridDecrypt E)
    (persistent : bool) : Client E :=
  {| correlationID := "9m4e2mr0ui3e8a215n4g";
     secretKey := "6ba7b810-9dad-41d1-80b4-00c04fd430c8";
     serverURL := {| url_String := "https://interact.sh";
                     Host := "interact.sh" |};
     decrypter := Some HybridDecrypt_key;
     quitChan := None;
     persistentSession := persistent |}.

Definition client0 : Client ok := client_of ok 7 false.

(** Processes of that client with one polling goroutine, callback 1. *)
Definition goroutine (full halted : bool) (at_ : pc) : Goroutine :=
  {| ticker := {| C_full := full; stopped := halted |};
     callback := 1%nat;
     at_pc := at_ |}.

Definition process (ch : chan_state) (g : Goroutine) (w : World ok)
    : Process ok :=
  {| client := set_quitChan client0 (Some ch);
     goroutines := [g];
     world := w;
     panicked := None |}.

(** After [StartPolling]: the goroutine stands at its select. *)
Definition started : Process ok :=
  process ChanOpen (goroutine false false AtSelect) (world0 ok).

(** The timer has fired. *)
Definition ticked : Process ok :=
  process ChanOpen (goroutine true false AtSelect) (world0 ok).

(** The goroutine took the tick and is inside [getInteractions]. *)
Definition in_flight : Process ok :=
  process ChanOpen (goroutine false false InGetInteractions) (world0 ok).

(** [StopPolling] returned while the tick is in flight. *)
Definition stopped_in_flight : Process ok :=
  process ChanClosed (goroutine false false InGetInteractions) (world0 ok).

(** The tick in flight completed. *)
Definition delivered : Process ok :=
  process ChanClosed (goroutine false false AtSelect)
    {| objectIDCounter := 0;
       wire := [poll_request client0];
       fired := [(1%nat, 9 : Interaction ok)] |}.

(** [StopPolling] returned while the goroutine stands at its select. *)
Definition stopped_idle : Process ok :=
  process ChanClosed (goroutine false false AtSelect) (world0 ok).

(** The goroutine took the quit case. *)
Definition returned : Process ok :=
  process ChanClosed (goroutine false true Returned) (world0 ok).

End demo.

(** ** zbase32: the encoding of eight bytes *)

Lemma below_complete (n : nat) (P : Z -> bool) :
  forallb P (below n) = true ->
  forall z, 0 <= z < Z.of_nat n -> P z = true.
Proof.
  intros H z Hz. rewrite forallb_forall in H. apply H.
  unfold below. apply in_map_iff. exists (Z.to_nat z). split.
  - lia.
  - apply in_seq. lia.
Qed.

Lemma all_bytes_complete (P : Z -> bool) :
  forallb P all_bytes = true -> forall b, is_byte b -> P b = true.
Proof.
  intros H b Hb. apply (below_complete 256 P H). exact Hb.
Qed.

Lemma inside_agrees_all : forallb inside_agrees [0;1;2;3] = true.
Proof. vm_compute. reflexivity. Qed.

Lemma straddle_agrees_all : forallb straddle_agrees [4;5;6;7] = true.
Proof. vm_compute. reflexivity. Qed.

Lemma lor_agrees_all : forallb lor_agrees [1;2;3;4] = true.
Proof. vm_compute. reflexivity. Qed.

Lemma char_at_inside offset b0 b1 :
  In offset [0;1;2;3] -> is_byte b0 ->
  zbase32.char_at offset b0 b1 = (b0 / 2 ^ (3 - offset)) mod 32.
Proof.
  intros Ho H0.
  pose proof inside_agrees_all as H. rewrite forallb_forall in H.
  specialize (H _ Ho). unfold inside_agrees in H.
  pose proof (all_bytes_complete _ H b0 H0) as H'. cbv beta in H'.
  apply Z.eqb_eq in H'. rewrite <- H'.
  simpl in Ho. intuition (subst; reflexivity).
Qed.

Lemma lor_disjoint k x y :
  In k [1;2;3;4] -> 0 <= x < 32 -> 0 <= y < 2 ^ k -> x mod 2 ^ k = 0 ->
  Z.lor x y = x + y.
Proof.
  intros Hk Hx Hy Hm.
  assert (Hy32 : 0 <= y < 32).
  { simpl in Hk. intuition (subst; simpl in *; lia). }
  pose proof lor_agrees_all as H. rewrite forallb_forall in H.
  specialize (H _ Hk). unfold lor_agrees in H.
  pose proof (below_complete 32 _ H x Hx) as H'. cbv beta in H'.
  pose proof (below_complete 32 _ H' y Hy32) as H''. cbv beta in H''.
  apply Z.eqb_eq in Hm. rewrite Hm in H''.
  destruct (Z.ltb_spec y (2 ^ k)) as [_|Hge]; [|lia].
  simpl in H''. apply Z.eqb_eq in H''. exact H''.
Qed.

Lemma char_at_straddle offset b0 b1 :
  In offset [4;5;6;7] -> is_byte b0 -> is_byte b1 ->
  zbase32.char_at offset b0 b1 =
  (b0 mod 2 ^ (8 - offset)) * 2 ^ (offset - 3) + b1 / 2 ^ (11 - offset).
Proof.
  intros Ho H0 H1.
  pose proof straddle_agrees_all as H. rewrite forallb_forall in H.
  specialize (H _ Ho). unfold straddle_agrees in H.
  pose proof (all_bytes_complete _ H b0 H0) as Hb0. cbv beta in Hb0.
  pose proof (all_bytes_complete _ H b1 H1) as Hb1. cbv beta in Hb1.
  apply andb_true_iff in Hb0 as [Hlow _]. apply andb_true_iff in Hb1 as [_ Hhigh].
  apply Z.eqb_eq in Hlow, Hhigh.
  assert (Hc : zbase32.char_at offset b0 b1
               = Z.lor (low_bits offset b0) (high_bits offset b1)).
  { simpl in Ho. intuition (subst; reflexivity). }
  rewrite Hc, Hlow, Hhigh. clear H Hc Hlow Hhigh. unfold is_byte in *.
  simpl in Ho.
  destruct Ho as [<-|[<-|[<-|[<-|[]]]]].
  - apply (lor_disjoint 1); [simpl; tauto | | |];
      change (2 ^ (8 - 4)) with 16; change (2 ^ (4 - 3)) with 2;
      change (2 ^ (11 - 4)) with 128; change (2 ^ 1) with 2;
      Z.div_mod_to_equations; lia.
  - apply (lor_disjoint 2); [simpl; tauto | | |];
      change (2 ^ (8 - 5)) with 8; change (2 ^ (5 - 3)) with 4;
      change (2 ^ (11 - 5)) with 64; change (2 ^ 2) with 4;
      Z.div_mod_to_equations; lia.
  - apply (lor_disjoint 3); [simpl; tauto | | |];
      change (2 ^ (8 - 6)) with 4; change (2 ^ (6 - 3)) with 8;
      change (2 ^ (11 - 6)) with 32; change (2 ^ 3) with 8;
      Z.div_mod_to_equations; lia.
  - apply (lor_disjoint 4); [simpl; tauto | | |];
      change (2 ^ (8 - 7)) with 2; change (2 ^ (7 - 3)) with 16;
      change (2 ^ (11 - 7)) with 16; change (2 ^ 4) with 16;
      Z.div_mod_to_equations; lia.
Qed.

Lemma char_at_spec offset b0 b1 :
  0 <= offset < 8 -> is_byte b0 -> is_byte b1 ->
  zbase32.char_at offset b0 b1 = char_at_window offset b0 b1.
Proof.
  intros Ho H0 H1. unfold char_at_window, win.
  assert (Hcase : In offset [0;1;2;3] \/ In offset [4;5;6;7]) by (simpl; lia).
  destruct Hcase as [Hin|Hin].
  - rewrite (char_at_inside offset b0 b1 Hin H0). unfold is_byte in *.
    simpl in Hin. destruct Hin as [<-|[<-|[<-|[<-|[]]]]].
    + change (2 ^ (3 - 0)) with 8. change (2 ^ (11 - 0)) with 2048.
      Z.div_mod_to_equations; lia.
    + change (2 ^ (3 - 1)) with 4. change (2 ^ (11 - 1)) with 1024.
      Z.div_mod_to_equations; lia.
    + change (2 ^ (3 - 2)) with 2. change (2 ^ (11 - 2)) with 512.
      Z.div_mod_to_equations; lia.
    + change (2 ^ (3 - 3)) with 1. change (2 ^ (11 - 3)) with 256.
      Z.div_mod_to_equations; lia.
  - rewrite (char_at_straddle offset b0 b1 Hin H0 H1). unfold is_byte in *.
    simpl in Hin. destruct Hin as [<-|[<-|[<-|[<-|[]]]]].
    + change (2 ^ (8 - 4)) with 16; change (2 ^ (4 - 3)) with 2;
      change (2 ^ (11 - 4)) with 128. Z.div_mod_to_equations; lia.
    + change (2 ^ (8 - 5)) with 8; change (2 ^ (5 - 3)) with 4;
      change (2 ^ (11 - 5)) with 64. Z.div_mod_to_equations; lia.
    + change (2 ^ (8 - 6)) with 4; change (2 ^ (6 - 3)) with 8;
      change (2 ^ (11 - 6)) with 32. Z.div_mod_to_equations; lia.
    + change (2 ^ (8 - 7)) with 2; change (2 ^ (7 - 3)) with 16;
      change (2 ^ (11 - 7)) with 16. Z.div_mod_to_equations; lia.
Qed.

Lemma char_at_range offset b0 b1 :
  0 <= offset < 8 -> is_byte b0 -> is_byte b1 ->
  0 <= zbase32.char_at offset b0 b1 < 32.
Proof.
  intros. rewrite char_at_spec by assumption.
  unfold char_at_window, win. apply Z.mod_pos_bound. lia.
Qed.

(** The loop unrolled on eight bytes: thirteen groups. *)
Lemma encode_8 b0 b1 b2 b3 b4 b5 b6 b7 :
  zbase32.encode [b0;b1;b2;b3;b4;b5;b6;b7] =
  [ zbase32.char_at 0 b0 b1; zbase32.char_at 5 b0 b1; zbase32.char_at 2 b1 b2;
    zbase32.char_at 7 b1 b2; zbase32.char_at 4 b2 b3; zbase32.char_at 1 b3 b4;
    zbase32.char_at 6 b3 b4; zbase32.char_at 3 b4 b5; zbase32.char_at 0 b5 b6;
    zbase32.char_at 5 b5 b6; zbase32.char_at 2 b6 b7; zbase32.char_at 7 b6 b7;
    zbase32.char_at 4 b7 0 ].
Proof. reflexivity. Qed.

Lemma windows_inj a0 a1 a2 a3 a4 a5 a6 a7 b0 b1 b2 b3 b4 b5 b6 b7 :
  is_byte a0 -> is_byte a1 -> is_byte a2 -> is_byte a3 ->
  is_byte a4 -> is_byte a5 -> is_byte a6 -> is_byte a7 ->
  is_byte b0 -> is_byte b1 -> is_byte b2 -> is_byte b3 ->
  is_byte b4 -> is_byte b5 -> is_byte b6 -> is_byte b7 ->
  [ win 2048 a0 a1; win 64 a0 a1; win 512 a1 a2; win 16 a1 a2; win 128 a2 a3;
    win 1024 a3 a4; win 32 a3 a4; win 256 a4 a5; win 2048 a5 a6; win 64 a5 a6;
    win 512 a6 a7; win 16 a6 a7; win 128 a7 0 ] =
  [ win 2048 b0 b1; win 64 b0 b1; win 512 b1 b2; win 16 b1 b2; win 128 b2 b3;
    win 1024 b3 b4; win 32 b3 b4; win 256 b4 b5; win 2048 b5 b6; win 64 b5 b6;
    win 512 b6 b7; win 16 b6 b7; win 128 b7 0 ] ->
  [a0;a1;a2;a3;a4;a5;a6;a7] = [b0;b1;b2;b3;b4;b5;b6;b7].
Proof.
  unfold is_byte, win.
  intros A0 A1 A2 A3 A4 A5 A6 A7 B0 B1 B2 B3 B4 B5 B6 B7 H.
  injection H as E0 E1 E2 E3 E4 E5 E6 E7 E8 E9 E10 E11 E12.
  assert (a0 = b0) by (clear - E0 E1 A0 A1 B0 B1; Z.div_mod_to_equations; lia).
  subst b0.
  assert (a1 = b1) by (clear - E1 E2 E3 A0 A1 A2 B1 B2; Z.div_mod_to_equations; lia).
  subst b1.
  assert (a2 = b2) by (clear - E3 E4 A1 A2 A3 B2 B3; Z.div_mod_to_equations; lia).
  subst b2.
  assert (a3 = b3) by (clear - E4 E5 E6 A2 A3 A4 B3 B4; Z.div_mod_to_equations; lia).
  subst b3.
  assert (a4 = b4) by (clear - E6 E7 A3 A4 A5 B4 B5; Z.div_mod_to_equations; lia).
  subst b4.
  assert (a5 = b5) by (clear - E7 E8 E9 A4 A5 A6 B5 B6; Z.div_mod_to_equations; lia).
  subst b5.
  assert (a6 = b6) by (clear - E9 E10 E11 A5 A6 A7 B6 B7; Z.div_mod_to_equations; lia).
  subst b6.
  assert (a7 = b7) by (clear - E11 E12 A6 A7 B7; Z.div_mod_to_equations; lia).
  subst b7. reflexivity.
Qed.

Lemma encode_8_inj (bs bs' : bytes) :
  length bs = 8%nat -> length bs' = 8%nat ->
  Forall is_byte bs -> Forall is_byte bs' ->
  zbase32.encode bs = zbase32.encode bs' -> bs = bs'.
Proof.
  intros L L' F F' H.
  do 9 (destruct bs as [|? bs]; try discriminate L).
  do 9 (destruct bs' as [|? bs']; try discriminate L').
  repeat match goal with
         | H : Forall _ (_ :: _) |- _ => apply Forall_cons_1 in H; destruct H
         end.
  rewrite !encode_8 in H.
  assert (B0 : is_byte 0) by (unfold is_byte; lia).
  rewrite !char_at_spec in H by (assumption || lia).
  apply windows_inj; assumption.
Qed.

Lemma encode_8_range (bs : bytes) :
  length bs = 8%nat -> Forall is_byte bs ->
  length (zbase32.encode bs) = 13%nat /\
  Forall (fun i => 0 <= i < 32) (zbase32.encode bs).
Proof.
  intros L F.
  do 9 (destruct bs as [|? bs]; try discriminate L).
  repeat match goal with
         | H : Forall _ (_ :: _) |- _ => apply Forall_cons_1 in H; destruct H
         end.
  rewrite encode_8. split; [reflexivity|].
  assert (B0 : is_byte 0) by (unfold is_byte; lia).
  repeat (apply Forall_cons; split; [apply char_at_range; (assumption || lia)|]).
  apply Forall_nil_2.
Qed.

(** The alphabet: thirty-two distinct label-safe characters. *)
Lemma alphabet_index_at i :
  0 <= i < 32 -> alphabet_index (zbase32.alphabet_at i) = Some i.
Proof.
  intros Hi.
  pose (P := fun i => match alphabet_index (zbase32.alphabet_at i) with
                      | Some j => j =? i
                      | None => false
                      end).
  assert (H : P i = true).
  { apply (below_complete 32 P); [vm_compute; reflexivity | exact Hi]. }
  unfold P in H.
  destruct (alphabet_index (zbase32.alphabet_at i)) as [j|]; [|discriminate].
  apply Z.eqb_eq in H. now subst.
Qed.

Lemma alphabet_at_inj i j :
  0 <= i < 32 -> 0 <= j < 32 ->
  zbase32.alphabet_at i = zbase32.alphabet_at j -> i = j.
Proof.
  intros Hi Hj H. apply (f_equal alphabet_index) in H.
  rewrite !alphabet_index_at in H by assumption. congruence.
Qed.


Lemma map_alphabet_at_inj (l l' : list Z) :
  Forall (fun i => 0 <= i < 32) l -> Forall (fun i => 0 <= i < 32) l' ->
  map zbase32.alphabet_at l = map zbase32.alphabet_at l' -> l = l'.
Proof.
  intros F. revert l'. induction F as [|x l Hx F IH]; intros l' F' H.
  - destruct l'; [reflexivity|discriminate].
  - destruct F' as [|y l' Hy F']; [discriminate|].
    simpl in H. injection H as Hxy Hl.
    f_equal; [apply alphabet_at_inj; assumption | apply IH; assumption].
Qed.

Lemma string_of_list_ascii_inj (l l' : list ascii) :
  string_of_list_ascii l = string_of_list_ascii l' -> l = l'.
Proof.
  intros H. apply (f_equal list_ascii_of_string) in H.
  rewrite !list_ascii_of_string_of_list_ascii in H. exact H.
Qed.

Lemma string_of_list_ascii_length (l : list ascii) :
  String.length (string_of_list_ascii l) = length l.
Proof. induction l as [|a l IH]; simpl; [reflexivity|]. now rewrite IH. Qed.

Lemma EncodeToString_8_inj (bs bs' : bytes) :
  length bs = 8%nat -> length bs' = 8%nat ->
  Forall is_byte bs -> Forall is_byte bs' ->
  zbase32.EncodeToString bs = zbase32.EncodeToString bs' -> bs = bs'.
Proof.
  intros L L' F F' H. unfold zbase32.EncodeToString in H.
  apply string_of_list_ascii_inj in H.
  apply map_alphabet_at_inj in H;
    [| apply encode_8_range; assumption | apply encode_8_range; assumption].
  apply encode_8_inj; assumption.
Qed.

Lemma EncodeToString_8_length (bs : bytes) :
  length bs = 8%nat -> Forall is_byte bs ->
  String.length (zbase32.EncodeToString bs) = 13%nat.
Proof.
  intros L F. unfold zbase32.EncodeToString.
  rewrite string_of_list_ascii_length, length_map.
  apply encode_8_range; assumption.
Qed.


(** The loop ends because the source is used up, not because the
    destination is full: beyond [EncodedLen] iterations nothing is left to
    encode. *)
Lemma encode_loop_enough (fuel extra : nat) (i : Z) (src : bytes) :
  8 * Z.of_nat (length src) - i mod 8 <= 5 * Z.of_nat fuel ->
  zbase32.encode_loop (fuel + extra) i src = zbase32.encode_loop fuel i src.
Proof.
  revert i src. induction fuel as [|fuel IH]; intros i src Hfuel.
  - destruct src as [|b0 rest].
    + now destruct extra.
    + cbn [length] in Hfuel. pose proof (Z.mod_pos_bound i 8). lia.
  - destruct src as [|b0 rest]; [reflexivity|].
    cbn [Nat.add zbase32.encode_loop]. f_equal. apply IH.
    cbn [length] in Hfuel.
    pose proof (Z.mod_pos_bound i 8).
    destruct (Z.ltb_spec 2 (i mod 8)) as [Hgt|Hle]; cbn [length].
    + replace ((i + 5) mod 8) with (i mod 8 - 3)
        by (Z.div_mod_to_equations; lia).
      lia.
    + replace ((i + 5) mod 8) with (i mod 8 + 5)
        by (Z.div_mod_to_equations; lia).
      lia.
Qed.

Lemma encode_total (extra : nat) (src : bytes) :
  zbase32.encode_loop (zbase32.EncodedLen (length src) + extra) 0 src
  = zbase32.encode src.
Proof.
  apply encode_loop_enough. unfold zbase32.EncodedLen.
  change (0 mod 8) with 0.
  pose proof (Nat.div_mod (length src * 8 + 4) 5).
  pose proof (Nat.mod_upper_bound (length src * 8 + 4) 5).
  lia.
Qed.

(** ** Big-endian bytes of a 32-bit value *)

Lemma byte_is_byte x : is_byte (byte x).
Proof. unfold is_byte, byte. apply Z.mod_pos_bound. lia. Qed.

Lemma uint32_range x : 0 <= uint32 x < 2 ^ 32.
Proof. unfold uint32. apply Z.mod_pos_bound. lia. Qed.

Lemma PutUint32_bytes v :
  length (BigEndian_PutUint32 v) = 4%nat /\
  Forall is_byte (BigEndian_PutUint32 v).
Proof.
  split; [reflexivity|]. unfold BigEndian_PutUint32.
  repeat (apply Forall_cons; split; [apply byte_is_byte|]). apply Forall_nil_2.
Qed.

Lemma PutUint32_value v :
  0 <= v < 2 ^ 32 -> be_combine (BigEndian_PutUint32 v) = v.
Proof.
  intros Hv. unfold be_combine, BigEndian_PutUint32, byte. simpl fold_left.
  rewrite !Z.shiftr_div_pow2 by lia.
  change (2 ^ 32) with 4294967296 in Hv.
  change (2 ^ 24) with 16777216. change (2 ^ 16) with 65536.
  change (2 ^ 8) with 256.
  Z.div_mod_to_equations. lia.
Qed.

Lemma PutUint32_inj v v' :
  0 <= v < 2 ^ 32 -> 0 <= v' < 2 ^ 32 ->
  BigEndian_PutUint32 v = BigEndian_PutUint32 v' -> v = v'.
Proof.
  intros Hv Hv' H. apply (f_equal be_combine) in H.
  now rewrite !PutUint32_value in H.
Qed.

Lemma random_bytes_shape now i :
  length (random_bytes now i) = 8%nat /\ Forall is_byte (random_bytes now i).
Proof.
  unfold random_bytes. split.
  - rewrite length_app. reflexivity.
  - apply Forall_app. split; apply PutUint32_bytes.
Qed.


(** ** Strings *)

Lemma append_length (s t : string) :
  String.length (s +:+ t) = (String.length s + String.length t)%nat.
Proof. induction s as [|a s IH]; simpl; [reflexivity|]. now rewrite IH. Qed.

Lemma append_inj (s1 s2 t1 t2 : string) :
  String.length s1 = String.length s2 ->
  s1 +:+ t1 = s2 +:+ t2 -> s1 = s2 /\ t1 = t2.
Proof.
  revert s2. induction s1 as [|a s1 IH]; intros [|b s2] L H;
    try discriminate L.
  - split; [reflexivity | exact H].
  - simpl in L, H. injection L as L. injection H as Hab H.
    destruct (IH s2 L H) as [-> ->]. now subst.
Qed.

(** ** URL *)

Section URL_facts.

Context {E : Env}.

Lemma URL_identifier (c : Client E) (now : Z) (w : World E) :
  URL c now w =
  (identifier c now (uint32 (objectIDCounter w + 1)),
   tick_counter (uint32 (objectIDCounter w + 1)) w).
Proof. reflexivity. Qed.

(** Two identifiers agree only when every ingredient agrees. *)
Lemma identifier_inj (c c' : Client E) (now now' i i' : Z) :
  String.length (correlationID c) = String.length (correlationID c') ->
  0 <= i < 2 ^ 32 -> 0 <= i' < 2 ^ 32 ->
  identifier c now i = identifier c' now' i' ->
  correlationID c = correlationID c' /\ uint32 now = uint32 now' /\
  i = i' /\ Host (serverURL c) = Host (serverURL c').
Proof.
  intros L Hi Hi' H. unfold identifier in H.
  apply append_inj in H as [Hc H]; [|exact L].
  destruct (random_bytes_shape now i) as [L8 F8].
  destruct (random_bytes_shape now' i') as [L8' F8'].
  apply append_inj in H as [He H];
    [| now rewrite !EncodeToString_8_length].
  apply EncodeToString_8_inj in He; try assumption.
  unfold random_bytes in He.
  apply app_inj_1 in He as [Hn Hi2]; [|reflexivity].
  apply PutUint32_inj in Hn; [| apply uint32_range | apply uint32_range].
  apply PutUint32_inj in Hi2; [| assumption | assumption].
  simpl in H. injection H as H. auto.
Qed.

Lemma URLs_cons (c : Client E) (now : Z) (rest : list (Client E * Z))
    (w : World E) :
  URLs ((c, now) :: rest) w =
  (identifier c now (uint32 (objectIDCounter w + 1))
     :: fst (URLs rest (tick_counter (uint32 (objectIDCounter w + 1)) w)),
   snd (URLs rest (tick_counter (uint32 (objectIDCounter w + 1)) w))).
Proof.
  change (URLs ((c, now) :: rest) w) with
    (let '(u, w1) := URL c now w in
     let '(us, w2) := URLs rest w1 in (u :: us, w2)).
  rewrite URL_identifier.
  destruct (URLs rest _) as [us w2]. reflexivity.
Qed.

Lemma uint32_succ (x k : Z) :
  uint32 (uint32 (x + 1) + k + 1) = uint32 (x + (k + 1) + 1).
Proof.
  unfold uint32. rewrite <- Z.add_assoc, Zplus_mod_idemp_l.
  f_equal. lia.
Qed.

(** The identifier each call of a run returned. *)
Lemma URLs_lookup (calls : list (Client E * Z)) (w : World E)
    (k : nat) (c : Client E) (now : Z) :
  calls !! k = Some (c, now) ->
  fst (URLs calls w) !! k =
  Some (identifier c now (uint32 (objectIDCounter w + Z.of_nat k + 1))).
Proof.
  revert w k. induction calls as [|[c0 now0] rest IH]; intros w k Hk;
    [discriminate|].
  rewrite URLs_cons. cbn [fst].
  destruct k as [|k].
  - simpl in Hk. injection Hk as -> ->. simpl. do 3 f_equal. lia.
  - simpl in Hk. cbn [lookup list_lookup]. rewrite (IH _ k Hk).
    cbn [objectIDCounter tick_counter].
    rewrite uint32_succ. do 3 f_equal. lia.
Qed.

Lemma URLs_length (calls : list (Client E * Z)) (w : World E) :
  length (fst (URLs calls w)) = length calls.
Proof.
  revert w. induction calls as [|[c now] rest IH]; intros w; [reflexivity|].
  rewrite URLs_cons. cbn [fst length]. now rewrite IH.
Qed.

End URL_facts.

(** What [URL] returns on the first call of a process at a concrete second. *)
Example URL_first_call :
  URL demo.client0 1700000000 (demo.world0 demo.ok) =
  ("9m4e2mr0ui3e8a215n4gcij9nyyyyyyyn.interact.sh"%string,
   {| objectIDCounter := 1; wire := []; fired := [] |}).
Proof. vm_compute. reflexivity. Qed.


(** Within one run of at most 2^32 calls no two calls take the same
    counter value. *)
Lemma counters_distinct (x : Z) (i j : nat) :
  Z.of_nat i < 2 ^ 32 -> Z.of_nat j < 2 ^ 32 ->
  uint32 (x + Z.of_nat i + 1) = uint32 (x + Z.of_nat j + 1) -> i = j.
Proof.
  unfold uint32. change (2 ^ 32) with 4294967296. intros Hi Hj H.
  Z.div_mod_to_equations. lia.
Qed.

(** C3, amended.  In a run of at most 2^32 calls to [URL], made by any
    clients of the process whose correlation ids have the twenty characters
    of an xid, the returned strings are pairwise distinct. *)
Theorem URLs_distinct (E : Env) (calls : list (Client E * Z)) (w : World E) :
  Z.of_nat (length calls) <= 2 ^ 32 ->
  Forall (fun call => String.length (correlationID (fst call)) = 20%nat) calls ->
  NoDup (fst (URLs calls w)).
Proof.
  intros Hlen Hxid. apply NoDup_alt. intros i j u Hi Hj.
  assert (Li : (i < length calls)%nat).
  { rewrite <- (URLs_length calls w). eapply lookup_lt_Some, Hi. }
  assert (Lj : (j < length calls)%nat).
  { rewrite <- (URLs_length calls w). eapply lookup_lt_Some, Hj. }
  destruct (lookup_lt_is_Some_2 calls i Li) as [[c now] Hci].
  destruct (lookup_lt_is_Some_2 calls j Lj) as [[c' now'] Hcj].
  rewrite (URLs_lookup calls w i c now Hci) in Hi.
  rewrite (URLs_lookup calls w j c' now' Hcj) in Hj.
  injection Hi as Hi. injection Hj as Hj. rewrite <- Hj in Hi.
  rewrite Forall_forall in Hxid.
  pose proof (Hxid _ (list_elem_of_lookup_2 _ _ _ Hci)) as X.
  pose proof (Hxid _ (list_elem_of_lookup_2 _ _ _ Hcj)) as X'.
  simpl in X, X'.
  apply identifier_inj in Hi as (_ & _ & Hctr & _);
    [| congruence | apply uint32_range | apply uint32_range].
  apply counters_distinct in Hctr; [exact Hctr | lia | lia].
Qed.

Lemma URLs_distinct_witness :
  NoDup (fst (URLs [ (demo.client0, 1700000000); (demo.client0, 1700000000);
                     (demo.client_of demo.ok 7 true, 1700000001) ]
                   (demo.world0 demo.ok))).
Proof.
  apply URLs_distinct.
  - simpl. lia.
  - repeat constructor.
Defined.

(** C3 as stated fails: the counter has 32 bits, so the call number
    2^32 + 1 of a process takes the counter value of the first call; when
    the same client makes both and the clock reads the same second, both
    calls return the same string. *)
Lemma URL_repeats_after_wrap :
  ~ NoDup (fst (URLs (replicate (Z.to_nat (2 ^ 32 + 1))
                                (demo.client0, 1700000000))
                     (demo.world0 demo.ok))).
Proof.
  intros ND. rewrite NoDup_alt in ND.
  set (calls := replicate (Z.to_nat (2 ^ 32 + 1)) (demo.client0, 1700000000)) in *.
  assert (H0 : calls !! 0%nat = Some (demo.client0, 1700000000)).
  { apply lookup_replicate_2. lia. }
  assert (H1 : calls !! Z.to_nat (2 ^ 32) = Some (demo.client0, 1700000000)).
  { apply lookup_replicate_2. lia. }
  apply (URLs_lookup calls (demo.world0 demo.ok)) in H0, H1.
  rewrite Z2Nat.id in H1 by lia.
  change (uint32 (objectIDCounter (demo.world0 demo.ok) + 2 ^ 32 + 1))
    with 1 in H1.
  change (uint32 (objectIDCounter (demo.world0 demo.ok) + Z.of_nat 0 + 1))
    with 1 in H0.
  specialize (ND _ _ _ H0 H1). lia.
Qed.

(** ** Construction and teardown *)

Lemma errors_Wrap_nil (message : string) : errors_Wrap None message = None.
Proof. reflexivity. Qed.

Lemma errors_Wrap_some (e : error) (message : string) :
  errors_Wrap (Some e) message <> None.
Proof. discriminate. Qed.

Lemma NewRequest_ok (E : Env) (method url : string) (body : option bytes) :
  NewRequest_err E method url = None ->
  NewRequest E method url body =
  inl {| Method := method; ReqURL := url; ReqBody := body; ContentLength := 0 |}.
Proof. intros H. unfold NewRequest. now rewrite H. Qed.

Lemma NewRequest_fails (E : Env) (method url : string) (body : option bytes)
    (e : error) :
  NewRequest_err E method url = Some e ->
  NewRequest E method url body = inr e.
Proof. intros H. unfold NewRequest. now rewrite H. Qed.

(** [generateRSAKeyPair] returns an error or sets the decrypter; it leaves
    the identity of the client alone. *)
Lemma generateRSAKeyPair_fields (E : Env) (c : Client E) (w : World E) :
  let '(c', err, w') := generateRSAKeyPair c w in
  correlationID c' = correlationID c /\ secretKey c' = secretKey c /\
  serverURL c' = serverURL c /\ quitChan c' = quitChan c /\
  persistentSession c' = persistentSession c /\
  (err = None -> decrypter c' <> None).
Proof.
  unfold generateRSAKeyPair.
  repeat match goal with
         | |- context [match ?x with inl _ => _ | inr _ => _ end] => destruct x
         | |- context [if ?b then _ else _] => destruct b
         end;
    cbn; repeat split; try discriminate.
Qed.

(** [New] never returns both a client and an error, nor neither. *)
Lemma New_atomic (E : Env) (options : Options) (w : World E) :
  (exists c w', New E options w = (Some c, None, w')) \/
  (exists e w', New E options w = (None, Some e, w')).
Proof.
  unfold New. destruct (url_Parse E (ServerURL options)) as [parsed|e].
  - destruct (generateRSAKeyPair _ w) as [[c' [e|]] w']; eauto.
  - right. cbn. eauto.
Qed.

(** When the register call comes back with a response, [New] returns the
    client and a nil error; the status of the response plays no part. *)
Lemma New_on_response (E : Env) (options : Options) (w : World E)
    (parsed : url_URL) (khPriv khPub : KeysetHandle E) (hd : HybridDecrypt E)
    (keyset : Keyset E) (key data : bytes) (resp : Response) :
  let c := {| correlationID := xid_New_String E;
              secretKey := uuid_New_String E;
              serverURL := parsed;
              decrypter := Some hd;
              quitChan := None;
              persistentSession := PersistentSession options |} in
  url_Parse E (ServerURL options) = inl parsed ->
  keyset_NewHandle E = inl khPriv ->
  hybrid_NewHybridDecrypt E khPriv = inl hd ->
  Public E khPriv = inl khPub ->
  insecurecleartextkeyset_Write E khPub = inl keyset ->
  XXX_Marshal E keyset = inl key ->
  Marshal_RegisterRequest E (register_request c key) = inl data ->
  NewRequest_err E "POST" (url_String parsed +:+ "/register") = None ->
  httpClient_Do E (wire w) (post_request c "/register" data) = inl resp ->
  New E options w = (Some c, None, send (post_request c "/register" data) w).
Proof.
  intros c Hparse Hkh Hhd Hpub Hwrite Hkey Hdata Hreq Hdo.
  unfold New, generateRSAKeyPair. rewrite Hparse, Hkh, Hhd, Hpub, Hwrite, Hkey.
  change (set_decrypter _ hd) with c.
  change (serverURL c) with parsed. rewrite Hdata.
  rewrite (NewRequest_ok E _ _ _ Hreq).
  change (set_ContentLength _ _) with (post_request c "/register" data).
  rewrite Hdo. destruct (negb (StatusCode resp =? 200)); reflexivity.
Qed.

(** A client [New] returns was registered by one [POST /register] whose
    body marshals the exported public key, the secret and the correlation
    id; the client carries the decrypter and no quit channel. *)
Lemma New_client (E : Env) (options : Options) (w w' : World E)
    (c : Client E) (err : option error) :
  New E options w = (Some c, err, w') ->
  exists parsed khPriv khPub hd keyset key data resp,
    url_Parse E (ServerURL options) = inl parsed /\
    keyset_NewHandle E = inl khPriv /\
    hybrid_NewHybridDecrypt E khPriv = inl hd /\
    Public E khPriv = inl khPub /\
    insecurecleartextkeyset_Write E khPub = inl keyset /\
    XXX_Marshal E keyset = inl key /\
    Marshal_RegisterRequest E (register_request c key) = inl data /\
    NewRequest_err E "POST" (url_String parsed +:+ "/register") = None /\
    httpClient_Do E (wire w) (post_request c "/register" data) = inl resp /\
    c = {| correlationID := xid_New_String E;
           secretKey := uuid_New_String E;
           serverURL := parsed;
           decrypter := Some hd;
           quitChan := None;
           persistentSession := PersistentSession options |} /\
    err = None /\
    w' = send (post_request c "/register" data) w.
Proof.
  unfold New, generateRSAKeyPair, NewRequest.
  destruct (url_Parse E (ServerURL options)) as [parsed|e] eqn:Hparse;
    [|discriminate].
  destruct (keyset_NewHandle E) as [khPriv|e] eqn:Hkh; [|discriminate].
  destruct (hybrid_NewHybridDecrypt E khPriv) as [hd|e] eqn:Hhd; [|discriminate].
  destruct (Public E khPriv) as [khPub|e] eqn:Hpub; [|discriminate].
  destruct (insecurecleartextkeyset_Write E khPub) as [keyset|e] eqn:Hwrite;
    [|discriminate].
  destruct (XXX_Marshal E keyset) as [key|e] eqn:Hkey; [|discriminate].
  destruct (Marshal_RegisterRequest E _) as [data|e] eqn:Hdata; [|discriminate].
  destruct (NewRequest_err E _ _) as [e|] eqn:Hreq; [discriminate|].
  destruct (httpClient_Do E _ _) as [resp|e] eqn:Hdo; [|discriminate].
  intros H.
  assert (Hc : c = set_decrypter
                     {| correlationID := xid_New_String E;
                        secretKey := uuid_New_String E;
                        serverURL := parsed;
                        decrypter := None;
                        quitChan := None;
                        persistentSession := PersistentSession options |} hd
               /\ err = None
               /\ w' = send (set_ContentLength
                               {| Method := "POST";
                                  ReqURL := url_String parsed +:+ "/register";
                                  ReqBody := Some data;
                                  ContentLength := 0 |}
                               (Z.of_nat (length data))) w).
  { destruct (negb (StatusCode resp =? 200)); cbn in H;
      injection H as <- <- <-; auto. }
  destruct Hc as (-> & -> & ->).
  exists parsed, khPriv, khPub, hd, keyset, key, data, resp.
  repeat split; assumption.
Qed.

(** C1.  When the register call comes back with a status other than 200,
    [New] returns the client and a nil error: the status check wraps the
    nil [err] of the call, and [errors.Wrap] of nil is nil. *)
Theorem New_ignores_register_status (E : Env) (options : Options) (w : World E)
    (parsed : url_URL) (khPriv khPub : KeysetHandle E) (hd : HybridDecrypt E)
    (keyset : Keyset E) (key data : bytes) (resp : Response) :
  let c := {| correlationID := xid_New_String E;
              secretKey := uuid_New_String E;
              serverURL := parsed;
              decrypter := Some hd;
              quitChan := None;
              persistentSession := PersistentSession options |} in
  url_Parse E (ServerURL options) = inl parsed ->
  keyset_NewHandle E = inl khPriv ->
  hybrid_NewHybridDecrypt E khPriv = inl hd ->
  Public E khPriv = inl khPub ->
  insecurecleartextkeyset_Write E khPub = inl keyset ->
  XXX_Marshal E keyset = inl key ->
  Marshal_RegisterRequest E (register_request c key) = inl data ->
  NewRequest_err E "POST" (url_String parsed +:+ "/register") = None ->
  httpClient_Do E (wire w) (post_request c "/register" data) = inl resp ->
  StatusCode resp <> 200 ->
  New E options w = (Some c, None, send (post_request c "/register" data) w).
Proof.
  intros c Hparse Hkh Hhd Hpub Hwrite Hkey Hdata Hreq Hdo _.
  exact (New_on_response E options w parsed khPriv khPub hd keyset key data
           resp Hparse Hkh Hhd Hpub Hwrite Hkey Hdata Hreq Hdo).
Qed.

Lemma New_ignores_register_status_witness :
  fst (New demo.refusing demo.options
           (demo.world0 demo.refusing))
  = (Some (demo.client_of demo.refusing 7 false), None).
Proof.
  rewrite (New_ignores_register_status
             demo.refusing demo.options
             (demo.world0 demo.refusing)
             {| url_String := "https://interact.sh"; Host := "interact.sh" |}
             7 1007 7 1007 [3; 239]
             ([3; 239]
                ++ demo.bytes_of_string "6ba7b810-9dad-41d1-80b4-00c04fd430c8"
                ++ demo.bytes_of_string "9m4e2mr0ui3e8a215n4g")
             {| StatusCode := 400; Body := [] |});
    try reflexivity.
  discriminate.
Defined.

(** X2.  What decides the outcome of [New]: it returns an error exactly
    when some step up to and including the transport call fails (parsing
    the address, the keyset steps, marshalling, building the request, the
    transport); the status of the response takes no part. *)
Lemma New_fails_iff (E : Env) (options : Options) (w : World E) :
  (exists e w', New E options w = (None, Some e, w')) <->
  ~ (exists parsed khPriv khPub hd keyset key data resp,
       url_Parse E (ServerURL options) = inl parsed /\
       keyset_NewHandle E = inl khPriv /\
       hybrid_NewHybridDecrypt E khPriv = inl hd /\
       Public E khPriv = inl khPub /\
       insecurecleartextkeyset_Write E khPub = inl keyset /\
       XXX_Marshal E keyset = inl key /\
       Marshal_RegisterRequest E
         (register_request
            {| correlationID := xid_New_String E;
               secretKey := uuid_New_String E;
               serverURL := parsed;
               decrypter := Some hd;
               quitChan := None;
               persistentSession := PersistentSession options |} key)
         = inl data /\
       NewRequest_err E "POST" (url_String parsed +:+ "/register") = None /\
       httpClient_Do E (wire w)
         (post_request
            {| correlationID := xid_New_String E;
               secretKey := uuid_New_String E;
               serverURL := parsed;
               decrypter := Some hd;
               quitChan := None;
               persistentSession := PersistentSession options |}
            "/register" data) = inl resp).
Proof.
  split.
  - intros (e & w' & Hfail)
           (parsed & khPriv & khPub & hd & keyset & key & data & resp &
            H1 & H2 & H3 & H4 & H5 & H6 & H7 & H8 & H9).
    rewrite (New_on_response E options w parsed khPriv khPub hd keyset key
               data resp H1 H2 H3 H4 H5 H6 H7 H8 H9) in Hfail.
    discriminate.
  - intros Hno. destruct (New_atomic E options w) as [(c & w' & Hok)|Hfail];
      [|exact Hfail].
    exfalso. apply Hno.
    destruct (New_client E options w w' c None Hok)
      as (parsed & khPriv & khPub & hd & keyset & key & data & resp &
          H1 & H2 & H3 & H4 & H5 & H6 & H7 & H8 & H9 & Hc & _ & _).
    subst c. exists parsed, khPriv, khPub, hd, keyset, key, data, resp.
    repeat split; assumption.
Qed.

(** *** Close *)

Lemma Close_persistent (E : Env) (c : Client E) (w : World E) :
  persistentSession c = true -> Close c w = (None, w).
Proof. intros H. unfold Close. now rewrite H. Qed.

(** The deregister call of a non-persistent client, once its request is
    built: one request on the wire, and the value [Close] returns. *)
Lemma Close_sends (E : Env) (c : Client E) (w : World E) (data : bytes) :
  persistentSession c = false ->
  Marshal_DeregisterRequest E {| dereg_CorrelationID := correlationID c |}
    = inl data ->
  NewRequest_err E "POST" (url_String (serverURL c) +:+ "/deregister") = None ->
  Close c w =
  (match httpClient_Do E (wire w) (post_request c "/deregister" data) with
   | inr e => Some (withMessage e "could not make deregister request")
   | inl resp => None
   end,
   send (post_request c "/deregister" data) w).
Proof.
  intros Hp Hdata Hreq. unfold Close. rewrite Hp. cbn [negb].
  rewrite Hdata, (NewRequest_ok E _ _ _ Hreq).
  change (set_ContentLength _ _) with (post_request c "/deregister" data).
  destruct (httpClient_Do E _ _) as [resp|e]; [|reflexivity].
  destruct (negb (StatusCode resp =? 200)); reflexivity.
Qed.

(** When the request cannot be built, nothing is sent and [Close] returns
    the error. *)
Lemma Close_not_built (E : Env) (c : Client E) (w : World E) :
  persistentSession c = false ->
  (exists e, Marshal_DeregisterRequest E
               {| dereg_CorrelationID := correlationID c |} = inr e) \/
  (exists e, NewRequest_err E "POST"
               (url_String (serverURL c) +:+ "/deregister") = Some e) ->
  fst (Close c w) <> None /\ snd (Close c w) = w.
Proof.
  intros Hp H. unfold Close. rewrite Hp. cbn [negb].
  destruct H as [[e He]|[e He]].
  - rewrite He. cbn. split; [discriminate|reflexivity].
  - destruct (Marshal_DeregisterRequest E _) as [data|e'];
      [|cbn; split; [discriminate|reflexivity]].
    rewrite (NewRequest_fails E _ _ _ e He). cbn.
    split; [discriminate|reflexivity].
Qed.

(** A transport error of the deregister call is returned to the caller. *)
Lemma Close_transport_error (E : Env) (c : Client E) (w : World E)
    (data : bytes) (e : error) :
  persistentSession c = false ->
  Marshal_DeregisterRequest E {| dereg_CorrelationID := correlationID c |}
    = inl data ->
  NewRequest_err E "POST" (url_String (serverURL c) +:+ "/deregister") = None ->
  httpClient_Do E (wire w) (post_request c "/deregister" data) = inr e ->
  fst (Close c w) = Some (withMessage e "could not make deregister request").
Proof.
  intros Hp Hdata Hreq Hdo. rewrite (Close_sends E c w data Hp Hdata Hreq).
  now rewrite Hdo.
Qed.

(** C2.  When the deregister call of a non-persistent client comes back
    with a status other than 200, [Close] returns nil: the status check
    wraps the nil [err] of the call, and [errors.Wrap] of nil is nil. *)
Theorem Close_ignores_deregister_status (E : Env) (c : Client E)
    (w : World E) (data : bytes) (resp : Response) :
  persistentSession c = false ->
  Marshal_DeregisterRequest E {| dereg_CorrelationID := correlationID c |}
    = inl data ->
  NewRequest_err E "POST" (url_String (serverURL c) +:+ "/deregister") = None ->
  httpClient_Do E (wire w) (post_request c "/deregister" data) = inl resp ->
  StatusCode resp <> 200 ->
  fst (Close c w) = None.
Proof.
  intros Hp Hdata Hreq Hdo _. rewrite (Close_sends E c w data Hp Hdata Hreq).
  now rewrite Hdo.
Qed.

Lemma Close_ignores_deregister_status_witness :
  fst (Close (demo.client_of demo.refusing 7 false)
             (demo.world0 demo.refusing)) = None.
Proof.
  apply (Close_ignores_deregister_status
           demo.refusing
           (demo.client_of demo.refusing 7 false)
           (demo.world0 demo.refusing)
           (demo.bytes_of_string "9m4e2mr0ui3e8a215n4g")
           {| StatusCode := 400; Body := [] |});
    try reflexivity.
  discriminate.
Defined.

(** C6.  [Close] on a persistent client sends nothing and returns nil.
    [Close] on a non-persistent client whose request is built puts exactly
    one request on the wire: a [POST] to [/deregister] on the server
    address whose body marshals the deregister record holding the client's
    correlation id. *)
Theorem Close_deregisters (E : Env) (c : Client E) (w : World E) :
  (persistentSession c = true ->
   Close c w = (None, w)) /\
  (persistentSession c = false ->
   forall data,
     Marshal_DeregisterRequest E {| dereg_CorrelationID := correlationID c |}
       = inl data ->
     NewRequest_err E "POST" (url_String (serverURL c) +:+ "/deregister")
       = None ->
     wire (snd (Close c w)) =
     wire w ++ [ {| Method := "POST";
                    ReqURL := url_String (serverURL c) +:+ "/deregister";
                    ReqBody := Some data;
                    ContentLength := Z.of_nat (length data) |} ]).
Proof.
  split.
  - apply Close_persistent.
  - intros Hp data Hdata Hreq.
    rewrite (Close_sends E c w data Hp Hdata Hreq). reflexivity.
Qed.

Lemma Close_deregisters_witness :
  Close (demo.client_of demo.ok 7 true) (demo.world0 demo.ok)
    = (None, demo.world0 demo.ok) /\
  wire (snd (Close demo.client0 (demo.world0 demo.ok))) =
    [ {| Method := "POST";
         ReqURL := "https://interact.sh/deregister";
         ReqBody := Some (demo.bytes_of_string "9m4e2mr0ui3e8a215n4g");
         ContentLength := 20 |} ].
Proof.
  split.
  - apply (proj1 (Close_deregisters demo.ok (demo.client_of demo.ok 7 true)
                    (demo.world0 demo.ok))).
    reflexivity.
  - apply (proj2 (Close_deregisters demo.ok demo.client0 (demo.world0 demo.ok)));
      reflexivity.
Defined.

(** ** The poll tick *)

(** The loop over the blobs: one invocation per blob that decodes, in the
    order of the blobs; the wire and the counter are not touched. *)
Lemma deliver_fired (E : Env) (c : Client E) (cb : InteractionCallback)
    (hd : HybridDecrypt E) (data : list bytes) (w : World E) :
  decrypter c = Some hd ->
  deliver c cb data w =
  Done {| objectIDCounter := objectIDCounter w;
          wire := wire w;
          fired := fired w ++ map (pair cb) (omap (decoded E hd) data) |}.
Proof.
  intros Hd. revert w. induction data as [|blob rest IH]; intros w.
  - cbn. rewrite app_nil_r. now destruct w.
  - cbn [deliver omap list_omap]. rewrite Hd. unfold decoded at 1.
    destruct (Decrypt E hd blob) as [plaintext|e]; [|apply IH].
    destruct (Unmarshal_Interaction E plaintext) as [interaction|e];
      [|apply IH].
    rewrite IH. cbn. now rewrite <- app_assoc.
Qed.

(** Without blobs the loop does nothing, whatever the decrypter. *)
Lemma deliver_nil (E : Env) (c : Client E) (cb : InteractionCallback)
    (w : World E) :
  deliver c cb [] w = Done w.
Proof. reflexivity. Qed.

Lemma getInteractions_request (E : Env) (c : Client E) :
  NewRequest_err E "GET" (ReqURL (poll_request c)) = None ->
  NewRequest E "GET" (poll_address c) None = inl (poll_request c).
Proof. intros H. unfold NewRequest, poll_address. cbn in H. now rewrite H. Qed.

(** C4.  On a poll response that decodes, the tick invokes the callback
    once for each blob that decrypts and parses, with the interaction it
    parses to, in the order of the blobs, and skips the others; a batch of
    one corrupt and one valid blob, in either order, gives exactly one
    invocation, for the valid blob. *)
Theorem getInteractions_decodes (E : Env) (c : Client E)
    (cb : InteractionCallback) (w : World E) (hd : HybridDecrypt E)
    (resp : Response) (response : PollResponse) :
  decrypter c = Some hd ->
  NewRequest_err E "GET" (ReqURL (poll_request c)) = None ->
  httpClient_Do E (wire w) (poll_request c) = inl resp ->
  StatusCode resp = 200 ->
  Decode_PollResponse E (Body resp) = inl response ->
  exists w',
    getInteractions c cb w = Done w' /\
    fired w' = fired w ++ map (pair cb) (omap (decoded E hd) (Data response)) /\
    (forall corrupt valid interaction,
       decoded E hd corrupt = None ->
       decoded E hd valid = Some interaction ->
       Data response = [corrupt; valid] \/ Data response = [valid; corrupt] ->
       fired w' = fired w ++ [(cb, interaction)]).
Proof.
  intros Hd Hreq Hdo Hstatus Hdecode.
  unfold getInteractions. rewrite (getInteractions_request E c Hreq), Hdo, Hstatus.
  cbn [Z.eqb Pos.eqb negb]. rewrite Hdecode.
  rewrite (deliver_fired E c cb hd _ _ Hd). eexists. split; [reflexivity|].
  cbn [fired send]. split; [reflexivity|].
  intros corrupt valid interaction Hc Hv [->| ->]; cbn; rewrite Hc, Hv;
    reflexivity.
Qed.

Lemma getInteractions_decodes_witness :
  exists w' : World demo.ok,
    getInteractions demo.client0 1%nat (demo.world0 demo.ok) = Done w' /\
    fired w' = [(1%nat, 9 : Interaction demo.ok)].
Proof.
  destruct (getInteractions_decodes demo.ok demo.client0 1%nat
              (demo.world0 demo.ok) 7
              {| StatusCode := 200; Body := [0; 5; 7; 9] |}
              {| Data := [[0; 5]; [7; 9]] |})
    as (w' & Hrun & _ & Hone); try reflexivity.
  exists w'. split; [exact Hrun|].
  apply (Hone [0; 5] [7; 9] 9); [reflexivity | reflexivity | left; reflexivity].
Defined.

(** The same tick by computation: the corrupt blob is skipped, the valid
    one reaches the callback. *)
Example getInteractions_corrupt_then_valid :
  getInteractions demo.client0 1%nat (demo.world0 demo.ok) =
  Done {| objectIDCounter := 0;
          wire := [poll_request demo.client0];
          fired := [(1%nat, 9 : Interaction demo.ok)] |}.
Proof. vm_compute. reflexivity. Qed.

(** C8.  A poll tick builds [GET /poll?id={correlationID}&secret={secretKey}]
    on the server address and, once built, sends exactly that request.
    When the request cannot be built, the transport fails, the status is
    not 200 or the body does not decode, the tick completes without
    invoking the callback; [getInteractions] has no error to return. *)
Theorem getInteractions_fails_silently (E : Env) (c : Client E)
    (cb : InteractionCallback) (w : World E) :
  (NewRequest_err E "GET" (ReqURL (poll_request c)) = None ->
   forall w', getInteractions c cb w = Done w' ->
              wire w' = wire w ++ [poll_request c]) /\
  (poll_fails E c w ->
   exists w', getInteractions c cb w = Done w' /\ fired w' = fired w).
Proof.
  split.
  - intros Hreq w' Hrun. unfold getInteractions in Hrun.
    rewrite (getInteractions_request E c Hreq) in Hrun.
    destruct (httpClient_Do E _ _) as [resp|e];
      [|injection Hrun as <-; reflexivity].
    destruct (negb (StatusCode resp =? 200));
      [injection Hrun as <-; reflexivity|].
    destruct (Decode_PollResponse E _) as [response|e];
      [|injection Hrun as <-; reflexivity].
    destruct (decrypter c) as [hd|] eqn:Hd.
    + rewrite (deliver_fired E c cb hd _ _ Hd) in Hrun.
      injection Hrun as <-. reflexivity.
    + destruct (Data response) as [|blob rest].
      * cbn in Hrun. injection Hrun as <-. reflexivity.
      * cbn in Hrun. rewrite Hd in Hrun. discriminate.
  - intros Hfail. unfold getInteractions, NewRequest.
    change (poll_address c) with (ReqURL (poll_request c)).
    destruct (NewRequest_err E "GET" (ReqURL (poll_request c))) as [e|] eqn:Hreq.
    { eexists. split; reflexivity. }
    change {| Method := "GET"; ReqURL := ReqURL (poll_request c);
              ReqBody := None; ContentLength := 0 |} with (poll_request c).
    destruct Hfail as [Hbad|[[e He]|(resp & Hresp & Hcase)]].
    + contradiction.
    + rewrite He. eexists. split; reflexivity.
    + rewrite Hresp. destruct Hcase as [Hstatus|[e He]].
      * destruct (Z.eqb_spec (StatusCode resp) 200) as [Heq|_];
          [contradiction|].
        eexists. split; reflexivity.
      * destruct (negb (StatusCode resp =? 200));
          [eexists; split; reflexivity|].
        rewrite He. eexists. split; reflexivity.
Qed.

Lemma getInteractions_fails_silently_witness :
  (forall w' : World demo.ok,
     getInteractions demo.client0 1%nat (demo.world0 demo.ok) = Done w' ->
     wire w' = [poll_request demo.client0]) /\
  (exists w' : World demo.rejecting,
     getInteractions (demo.client_of demo.rejecting 7 false) 1%nat
       (demo.world0 demo.rejecting) = Done w'
     /\ fired w' = []) /\
  (exists w' : World demo.offline,
     getInteractions (demo.client_of demo.offline 7 false) 1%nat
       (demo.world0 demo.offline) = Done w'
     /\ fired w' = []) /\
  (exists w' : World demo.refusing,
     getInteractions (demo.client_of demo.refusing 7 false) 1%nat
       (demo.world0 demo.refusing) = Done w'
     /\ fired w' = []) /\
  (exists w' : World demo.garbling,
     getInteractions (demo.client_of demo.garbling 7 false) 1%nat
       (demo.world0 demo.garbling) = Done w'
     /\ fired w' = []).
Proof.
  split; [|split; [|split; [|split]]].
  - apply (proj1 (getInteractions_fails_silently demo.ok demo.client0 1%nat
                    (demo.world0 demo.ok))).
    reflexivity.
  - apply (proj2 (getInteractions_fails_silently
                    demo.rejecting (demo.client_of demo.rejecting 7 false) 1%nat
                    (demo.world0 demo.rejecting))).
    left. discriminate.
  - apply (proj2 (getInteractions_fails_silently
                    demo.offline (demo.client_of demo.offline 7 false) 1%nat
                    (demo.world0 demo.offline))).
    right. left. eexists. reflexivity.
  - apply (proj2 (getInteractions_fails_silently
                    demo.refusing (demo.client_of demo.refusing 7 false) 1%nat
                    (demo.world0 demo.refusing))).
    right. right. eexists. split; [reflexivity|]. left. discriminate.
  - apply (proj2 (getInteractions_fails_silently
                    demo.garbling (demo.client_of demo.garbling 7 false) 1%nat
                    (demo.world0 demo.garbling))).
    right. right. eexists. split; [reflexivity|]. right.
    eexists. reflexivity.
Defined.

(** ** The polling lifecycle *)

Section Lifecycle.

Context {E : Env}.

Implicit Types p : Process E.

Lemma step_client p p' : step p p' -> client p' = client p.
Proof. destruct 1; reflexivity. Qed.

Lemma steps_client p p' : rtc step p p' -> client p' = client p.
Proof.
  induction 1 as [|p p1 p2 H _ IH]; [reflexivity|].
  rewrite IH. now apply step_client.
Qed.

Lemma StopPolling_Done p p1 :
  StopPolling p = Done p1 ->
  quitChan (client p) = Some ChanOpen /\
  quitChan (client p1) = Some ChanClosed /\
  goroutines p1 = goroutines p /\ world p1 = world p /\
  panicked p1 = panicked p /\ same_identity (client p) (client p1).
Proof.
  unfold StopPolling, close.
  destruct (quitChan (client p)) as [[|]|]; try discriminate.
  intros H. injection H as <-. cbn. repeat split.
Qed.

Lemma StartPolling_Done duration cb p p1 :
  StartPolling duration cb p = Done p1 ->
  quitChan (client p1) = Some ChanOpen /\
  world p1 = world p /\ same_identity (client p) (client p1).
Proof.
  unfold StartPolling. destruct (duration <=? 0); [discriminate|].
  intros H. injection H as <-. cbn. repeat split.
Qed.

(** Goroutines that have returned stay returned, and without any other
    goroutine nothing invokes the callback. *)
Lemma step_all_returned p p' :
  Forall (fun g => at_pc g = Returned) (goroutines p) ->
  step p p' ->
  Forall (fun g => at_pc g = Returned) (goroutines p') /\
  world p' = world p.
Proof.
  intros Hall Hstep. rewrite Forall_lookup in Hall.
  destruct Hstep as [p k g Hp Hk Hs | p k g Hp Hk Hpc Hc | p k g Hp Hk Hpc Hq
                    | p k g w' Hp Hk Hpc Hrun | p k g msg Hp Hk Hpc Hrun];
    pose proof (Hall k g Hk) as Hret; try congruence.
  split; [|reflexivity]. cbn. rewrite Forall_lookup. intros i x Hi.
  destruct (decide (k = i)) as [->|Hne].
  - rewrite list_lookup_insert_eq in Hi by (eapply lookup_lt_Some, Hk).
    injection Hi as <-. exact Hret.
  - rewrite list_lookup_insert_ne in Hi by exact Hne. eapply Hall, Hi.
Qed.

Lemma steps_all_returned p p' :
  Forall (fun g => at_pc g = Returned) (goroutines p) ->
  rtc step p p' ->
  world p' = world p.
Proof.
  intros Hall Hsteps. induction Hsteps as [|p p1 p2 H _ IH]; [reflexivity|].
  destruct (step_all_returned p p1 Hall H) as [Hall1 Hw].
  rewrite IH by exact Hall1. exact Hw.
Qed.

End Lifecycle.

(** C10.  [StopPolling] on a client that [New] just returned, or on any
    client whose quit channel is nil, panics on the close of a nil
    channel; [StopPolling] after a [StopPolling] that returned, whatever
    the timer and the goroutines did in between, panics on the close of a
    closed channel.  Neither is a no-op or a returned error. *)
Theorem StopPolling_unguarded (E : Env) :
  (forall options (w w' : World E) (c : Client E),
     New E options w = (Some c, None, w') ->
     StopPolling (fresh c w') = Panic "close of nil channel") /\
  (forall p : Process E,
     quitChan (client p) = None ->
     StopPolling p = Panic "close of nil channel") /\
  (forall p p1 p2 : Process E,
     StopPolling p = Done p1 ->
     rtc step p1 p2 ->
     StopPolling p2 = Panic "close of closed channel").
Proof.
  assert (Hnil : forall p : Process E,
             quitChan (client p) = None ->
             StopPolling p = Panic "close of nil channel").
  { intros p H. unfold StopPolling. now rewrite H. }
  split; [|split; [exact Hnil|]].
  - intros options w w' c Hnew. apply Hnil.
    destruct (New_client E options w w' c None Hnew)
      as (parsed & khPriv & khPub & hd & keyset & key & data & resp & H).
    destruct H as (_ & _ & _ & _ & _ & _ & _ & _ & _ & -> & _). reflexivity.
  - intros p p1 p2 Hstop Hsteps.
    destruct (StopPolling_Done p p1 Hstop) as (_ & Hclosed & _).
    unfold StopPolling. rewrite (steps_client p1 p2 Hsteps), Hclosed.
    reflexivity.
Qed.

Lemma StopPolling_unguarded_witness :
  StopPolling (fresh demo.client0
                 (send (post_request demo.client0 "/register"
                          ([3; 239]
                             ++ demo.bytes_of_string
                                  "6ba7b810-9dad-41d1-80b4-00c04fd430c8"
                             ++ demo.bytes_of_string "9m4e2mr0ui3e8a215n4g"))
                       (demo.world0 demo.ok)))
    = Panic "close of nil channel" /\
  StopPolling demo.stopped_idle = Panic "close of closed channel".
Proof.
  split.
  - apply (proj1 (StopPolling_unguarded demo.ok) demo.options
                 (demo.world0 demo.ok)).
    reflexivity.
  - apply (proj2 (proj2 (StopPolling_unguarded demo.ok))
                 demo.started demo.stopped_idle demo.stopped_idle).
    + reflexivity.
    + apply rtc_refl.
Defined.

(** The lifecycle by computation: start, stop, stop again. *)
Example StopPolling_twice :
  exists p p1 : Process demo.ok,
    StartPolling 1000 1%nat (fresh demo.client0 (demo.world0 demo.ok)) = Done p /\
    StopPolling p = Done p1 /\
    StopPolling p1 = Panic "close of closed channel".
Proof. do 2 eexists. repeat split. Qed.

(** C5, amended.  Once [StopPolling] has returned, the quit channel stays
    closed: a goroutine that stands at its select can take the quit case,
    stop its ticker and return; and when the goroutines have returned, no
    move of the timer or of a goroutine invokes the callback again. *)
Theorem no_callback_after_return (E : Env) (p p1 p2 : Process E) :
  StopPolling p = Done p1 ->
  rtc step p1 p2 ->
  quitChan (client p2) = Some ChanClosed /\
  (forall k g,
     panicked p2 = None ->
     goroutines p2 !! k = Some g ->
     at_pc g = AtSelect ->
     step p2 (set_goroutine k
                {| ticker := {| C_full := C_full (ticker g); stopped := true |};
                   callback := callback g; at_pc := Returned |} p2)) /\
  (Forall (fun g => at_pc g = Returned) (goroutines p2) ->
   forall p3, rtc step p2 p3 -> fired (world p3) = fired (world p2)).
Proof.
  intros Hstop Hsteps.
  destruct (StopPolling_Done p p1 Hstop) as (_ & Hclosed & _).
  assert (Hq : quitChan (client p2) = Some ChanClosed).
  { now rewrite (steps_client p1 p2 Hsteps). }
  split; [exact Hq|]. split.
  - intros k g Hp Hk Hpc. now apply step_select_quit.
  - intros Hall p3 H23. now rewrite (steps_all_returned p2 p3 Hall H23).
Qed.

Lemma no_callback_after_return_witness :
  quitChan (client demo.returned) = Some ChanClosed /\
  (forall p3, rtc step demo.returned p3 -> fired (world p3) = []).
Proof.
  assert (Hrun : rtc step demo.stopped_idle demo.returned).
  { apply rtc_once.
    exact (step_select_quit demo.stopped_idle 0
             (demo.goroutine false false AtSelect)
             eq_refl eq_refl eq_refl eq_refl). }
  destruct (no_callback_after_return demo.ok demo.started demo.stopped_idle
              demo.returned eq_refl Hrun) as (Hclosed & _ & Hquiet).
  split; [exact Hclosed|].
  apply Hquiet. repeat constructor.
Defined.

(** C5 as stated fails.  The client starts polling, the timer fires and
    the goroutine takes the tick; while it is inside [getInteractions],
    [StopPolling] closes the channel and returns; the tick then completes
    and invokes the callback on the interaction the server sent. *)
Lemma callback_after_StopPolling :
  StartPolling 1000 1%nat (fresh demo.client0 (demo.world0 demo.ok))
    = Done demo.started /\
  rtc step demo.started demo.in_flight /\
  StopPolling demo.in_flight = Done demo.stopped_in_flight /\
  rtc step demo.stopped_in_flight demo.delivered /\
  fired (world demo.stopped_in_flight) = [] /\
  fired (world demo.delivered) = [(1%nat, 9 : Interaction demo.ok)].
Proof.
  split; [reflexivity|]. split.
  { apply (rtc_l _ _ demo.ticked).
    - exact (step_timer demo.started 0 (demo.goroutine false false AtSelect)
               eq_refl eq_refl eq_refl).
    - apply rtc_once.
      exact (step_select_tick demo.ticked 0
               (demo.goroutine true false AtSelect)
               eq_refl eq_refl eq_refl eq_refl). }
  split; [reflexivity|]. split; [|split; reflexivity].
  apply rtc_once.
  exact (step_getInteractions demo.stopped_in_flight 0
           (demo.goroutine false false InGetInteractions)
           (world demo.delivered) eq_refl eq_refl eq_refl eq_refl).
Qed.

(** ** The identity of a client and what it sends *)

Section Identity.

Context {E : Env}.

Implicit Types p : Process E.

Lemma same_identity_refl (c : Client E) : same_identity c c.
Proof. repeat split. Qed.

Lemma same_identity_trans (c1 c2 c3 : Client E) :
  same_identity c1 c2 -> same_identity c2 c3 -> same_identity c1 c3.
Proof.
  intros (H1 & H2 & H3) (H1' & H2' & H3'). repeat split; congruence.
Qed.

Lemma poll_or_deregister_identity (c c' : Client E) (req : Request) :
  same_identity c c' ->
  poll_or_deregister E c' req -> poll_or_deregister E c req.
Proof.
  intros (Hc & Hs & Hu) [->|(data & Hdata & ->)].
  - left. unfold poll_request. now rewrite Hc, Hs, Hu.
  - right. exists data. unfold post_request. rewrite <- Hc, <- Hu. auto.
Qed.

(** What [Close] puts on the wire. *)
Lemma Close_wire (c : Client E) (w : World E) :
  exists sent,
    wire (snd (Close c w)) = wire w ++ sent /\
    Forall (poll_or_deregister E c) sent.
Proof.
  unfold Close. destruct (persistentSession c); cbn [negb].
  2: {
    destruct (Marshal_DeregisterRequest E _) as [data|e] eqn:Hdata.
    2: { exists []. cbn. now rewrite app_nil_r. }
    unfold NewRequest. destruct (NewRequest_err E _ _) as [e|].
    { exists []. cbn. now rewrite app_nil_r. }
    change (set_ContentLength _ _) with (post_request c "/deregister" data).
    exists [post_request c "/deregister" data]. split.
    - destruct (httpClient_Do E _ _) as [resp|e]; [|reflexivity].
      destruct (negb (StatusCode resp =? 200)); reflexivity.
    - apply Forall_singleton. right. exists data. auto. }
  exists []. cbn. now rewrite app_nil_r.
Qed.

(** What [getInteractions] puts on the wire. *)
Lemma getInteractions_wire (c : Client E) (cb : InteractionCallback)
    (w w' : World E) :
  getInteractions c cb w = Done w' ->
  exists sent,
    wire w' = wire w ++ sent /\ Forall (poll_or_deregister E c) sent.
Proof.
  intros Hrun.
  destruct (NewRequest_err E "GET" (ReqURL (poll_request c))) as [e|] eqn:Hreq.
  - unfold getInteractions, NewRequest in Hrun.
    change (poll_address c) with (ReqURL (poll_request c)) in Hrun.
    rewrite Hreq in Hrun. injection Hrun as <-.
    exists []. now rewrite app_nil_r.
  - exists [poll_request c]. split; [|apply Forall_singleton; now left].
    unfold getInteractions in Hrun.
    rewrite (getInteractions_request E c Hreq) in Hrun.
    destruct (httpClient_Do E _ _) as [resp|e];
      [|injection Hrun as <-; reflexivity].
    destruct (negb (StatusCode resp =? 200));
      [injection Hrun as <-; reflexivity|].
    destruct (Decode_PollResponse E _) as [response|e];
      [|injection Hrun as <-; reflexivity].
    destruct (decrypter c) as [hd|] eqn:Hd.
    + rewrite (deliver_fired E c cb hd _ _ Hd) in Hrun.
      injection Hrun as <-. reflexivity.
    + destruct (Data response) as [|blob rest].
      * cbn in Hrun. injection Hrun as <-. reflexivity.
      * cbn in Hrun. rewrite Hd in Hrun. discriminate.
Qed.

Lemma nothing_sent (c : Client E) (w w' : World E) :
  wire w' = wire w ->
  exists sent,
    wire w' = wire w ++ sent /\ Forall (poll_or_deregister E c) sent.
Proof. intros H. exists []. split; [now rewrite app_nil_r | constructor]. Qed.

(** One transition keeps the identity and sends only what is allowed. *)
Lemma transition_identity p p' :
  transition p p' ->
  same_identity (client p) (client p') /\
  exists sent,
    wire (world p') = wire (world p) ++ sent /\
    Forall (poll_or_deregister E (client p)) sent.
Proof.
  intros [Hcall|Hstep].
  - destruct Hcall as [p now Hp | p d cb p' Hp Hs | p d cb msg Hp Hs
                      | p p' Hp Hs | p msg Hp Hs | p Hp].
    + split; [apply same_identity_refl | now apply nothing_sent].
    + destruct (StartPolling_Done d cb p p' Hs) as (_ & Hw & Hid).
      split; [exact Hid | apply nothing_sent; now rewrite Hw].
    + split; [apply same_identity_refl | now apply nothing_sent].
    + destruct (StopPolling_Done p p' Hs) as (_ & _ & _ & Hw & _ & Hid).
      split; [exact Hid | apply nothing_sent; now rewrite Hw].
    + split; [apply same_identity_refl | now apply nothing_sent].
    + split; [apply same_identity_refl | apply Close_wire].
  - split; [rewrite (step_client p p' Hstep); apply same_identity_refl|].
    destruct Hstep as [p k g Hp Hk Hs | p k g Hp Hk Hpc Hc | p k g Hp Hk Hpc Hq
                      | p k g w' Hp Hk Hpc Hrun | p k g msg Hp Hk Hpc Hrun];
      try (now apply nothing_sent).
    exact (getInteractions_wire (client p) (callback g) (world p) w' Hrun).
Qed.

Lemma transitions_identity p p' :
  rtc transition p p' ->
  same_identity (client p) (client p') /\
  exists sent,
    wire (world p') = wire (world p) ++ sent /\
    Forall (poll_or_deregister E (client p)) sent.
Proof.
  induction 1 as [p|p p1 p2 H _ IH].
  - split; [apply same_identity_refl|]. exists []. now rewrite app_nil_r.
  - destruct (transition_identity p p1 H) as (Hid & sent & Hw & Hs).
    destruct IH as (Hid' & sent' & Hw' & Hs').
    split; [eapply same_identity_trans; eassumption|].
    exists (sent ++ sent'). split.
    + rewrite Hw', Hw. now rewrite app_assoc.
    + apply Forall_app. split; [exact Hs|].
      eapply Forall_impl; [exact Hs'|].
      intros req. now apply poll_or_deregister_identity.
Qed.

End Identity.

(** C9.  [New] gives the client the correlation id and the secret drawn at
    construction, and its one request is a [POST /register] whose body
    marshals the key exported from the public handle of the keyset together
    with that secret and that correlation id.  From then on, whatever the
    owner calls ([URL], [StartPolling], [StopPolling], [Close]) and
    whatever the timer and the polling goroutines do ([getInteractions]),
    the correlation id and the secret stay the same, and every further
    request is the poll request or a [POST /deregister] of the correlation
    id: the private handle reaches the decrypter and nothing else. *)
Theorem identity_fixed (E : Env) :
  (forall options (w w' : World E) (c : Client E),
     New E options w = (Some c, None, w') ->
     correlationID c = xid_New_String E /\
     secretKey c = uuid_New_String E /\
     exists khPriv khPub hd keyset key data,
       keyset_NewHandle E = inl khPriv /\
       hybrid_NewHybridDecrypt E khPriv = inl hd /\
       decrypter c = Some hd /\
       Public E khPriv = inl khPub /\
       insecurecleartextkeyset_Write E khPub = inl keyset /\
       XXX_Marshal E keyset = inl key /\
       Marshal_RegisterRequest E
         {| reg_PublicKey := key;
            reg_SecretKey := secretKey c;
            reg_CorrelationID := correlationID c |} = inl data /\
       wire w' = wire w ++ [post_request c "/register" data]) /\
  (forall p p' : Process E,
     rtc transition p p' ->
     correlationID (client p') = correlationID (client p) /\
     secretKey (client p') = secretKey (client p) /\
     exists sent,
       wire (world p') = wire (world p) ++ sent /\
       Forall (poll_or_deregister E (client p)) sent).
Proof.
  split.
  - intros options w w' c Hnew.
    destruct (New_client E options w w' c None Hnew)
      as (parsed & khPriv & khPub & hd & keyset & key & data & resp &
          H1 & H2 & H3 & H4 & H5 & H6 & H7 & H8 & H9 & Hc & _ & Hw).
    split; [now subst c|]. split; [now subst c|].
    exists khPriv, khPub, hd, keyset, key, data.
    repeat split; try assumption.
    + now subst c.
    + now rewrite Hw.
  - intros p p' Hrun.
    destruct (transitions_identity p p' Hrun) as ((Hc & Hs & _) & Hsent).
    auto.
Qed.

Lemma identity_fixed_witness :
  (correlationID demo.client0 = "9m4e2mr0ui3e8a215n4g" /\
   secretKey demo.client0 = "6ba7b810-9dad-41d1-80b4-00c04fd430c8") /\
  (correlationID (client demo.delivered) = correlationID (client demo.started) /\
   secretKey (client demo.delivered) = secretKey (client demo.started)).
Proof.
  split.
  - destruct (proj1 (identity_fixed demo.ok) demo.options
                (demo.world0 demo.ok)
                (send (post_request demo.client0 "/register"
                         ([3; 239]
                            ++ demo.bytes_of_string
                                 "6ba7b810-9dad-41d1-80b4-00c04fd430c8"
                            ++ demo.bytes_of_string "9m4e2mr0ui3e8a215n4g"))
                      (demo.world0 demo.ok))
                demo.client0 eq_refl) as (Hc & Hs & _).
    split; [exact Hc | exact Hs].
  - assert (Hrun : rtc transition demo.started demo.delivered).
    { apply (rtc_l _ _ demo.ticked).
      { right. exact (step_timer demo.started 0
                        (demo.goroutine false false AtSelect)
                        eq_refl eq_refl eq_refl). }
      apply (rtc_l _ _ demo.in_flight).
      { right. exact (step_select_tick demo.ticked 0
                        (demo.goroutine true false AtSelect)
                        eq_refl eq_refl eq_refl eq_refl). }
      apply (rtc_l _ _ demo.stopped_in_flight).
      { left. exact (call_StopPolling demo.ok demo.in_flight
                       demo.stopped_in_flight eq_refl eq_refl). }
      apply rtc_once. right.
      exact (step_getInteractions demo.stopped_in_flight 0
               (demo.goroutine false false InGetInteractions)
               (world demo.delivered) eq_refl eq_refl eq_refl eq_refl). }
    destruct (proj2 (identity_fixed demo.ok) demo.started demo.delivered Hrun)
      as (Hc & Hs & _).
    split; [exact Hc | exact Hs].
Defined.

(** ** Further properties of construction and teardown *)





(** X5.  [Close] returns a non-nil error exactly when the session is not
    persistent and marshalling the deregister record fails, or building
    the request fails, or the transport fails. *)
Theorem Close_error_iff (E : Env) (c : Client E) (w : World E) :
  fst (Close c w) <> None <->
  persistentSession c = false /\
  ((exists e, Marshal_DeregisterRequest E
                {| dereg_CorrelationID := correlationID c |} = inr e) \/
   (exists data,
      Marshal_DeregisterRequest E
        {| dereg_CorrelationID := correlationID c |} = inl data /\
      ((exists e, NewRequest_err E "POST"
                    (url_String (serverURL c) +:+ "/deregister") = Some e) \/
       (NewRequest_err E "POST"
          (url_String (serverURL c) +:+ "/deregister") = None /\
        exists e, httpClient_Do E (wire w)
                    (post_request c "/deregister" data) = inr e)))).
Proof.
  destruct (persistentSession c) eqn:Hp.
  { rewrite (Close_persistent E c w Hp). split.
    - intros H. now contradiction H.
    - intros [H _]. discriminate. }
  destruct (Marshal_DeregisterRequest E
              {| dereg_CorrelationID := correlationID c |})
    as [data|e] eqn:Hdata.
  2: { split.
       - intros _. split; [reflexivity|]. left. eauto.
       - intros _. apply (Close_not_built E c w Hp). left. eauto. }
  destruct (NewRequest_err E "POST"
              (url_String (serverURL c) +:+ "/deregister")) as [e|] eqn:Hreq.
  { split.
    - intros _. split; [reflexivity|]. right. exists data.
      split; [reflexivity|]. left. eauto.
    - intros _. apply (Close_not_built E c w Hp). right. eauto. }
  rewrite (Close_sends E c w data Hp Hdata Hreq). cbn [fst].
  destruct (httpClient_Do E (wire w) (post_request c "/deregister" data))
    as [resp|e] eqn:Hdo.
  - split; [intros H; now contradiction H|].
    intros (_ & [[e He]|(data' & Hd' & [[e He]|(_ & e & He)])]);
      try discriminate.
    injection Hd' as <-. rewrite Hdo in He. discriminate.
  - split; [|discriminate].
    intros _. split; [reflexivity|]. right. exists data.
    split; [reflexivity|]. right. split; [reflexivity|]. eauto.
Qed.

(** X6.  [Close] keeps no record of having run: on a non-persistent
    client a second [Close] sends a second, identical deregister
    request. *)
Theorem Close_twice (E : Env) (c : Client E) (w : World E) (data : bytes) :
  persistentSession c = false ->
  Marshal_DeregisterRequest E {| dereg_CorrelationID := correlationID c |}
    = inl data ->
  NewRequest_err E "POST" (url_String (serverURL c) +:+ "/deregister") = None ->
  wire (snd (Close c (snd (Close c w)))) =
  wire w ++ [post_request c "/deregister" data;
             post_request c "/deregister" data].
Proof.
  intros Hp Hdata Hreq.
  rewrite (Close_sends E c _ data Hp Hdata Hreq). cbn [snd send wire].
  rewrite (Close_sends E c w data Hp Hdata Hreq). cbn [snd send wire].
  now rewrite <- app_assoc.
Qed.

Lemma Close_twice_witness :
  wire (snd (Close demo.client0 (snd (Close demo.client0 (demo.world0 demo.ok)))))
  = [post_request demo.client0 "/deregister"
       (demo.bytes_of_string "9m4e2mr0ui3e8a215n4g");
     post_request demo.client0 "/deregister"
       (demo.bytes_of_string "9m4e2mr0ui3e8a215n4g")].
Proof.
  apply (Close_twice demo.ok demo.client0 (demo.world0 demo.ok)); reflexivity.
Defined.

(** X7.  From construction to teardown of a non-persistent client whose
    requests are built, the wire carries the register request and then the
    deregister request, both on the parsed server address and both with
    the correlation id drawn at construction. *)
Theorem register_then_deregister (E : Env) (options : Options)
    (w w1 : World E) (c : Client E) (data' : bytes) :
  New E options w = (Some c, None, w1) ->
  PersistentSession options = false ->
  Marshal_DeregisterRequest E {| dereg_CorrelationID := xid_New_String E |}
    = inl data' ->
  NewRequest_err E "POST" (url_String (serverURL c) +:+ "/deregister") = None ->
  correlationID c = xid_New_String E /\
  url_Parse E (ServerURL options) = inl (serverURL c) /\
  exists data,
    wire (snd (Close c w1)) =
    wire w ++ [post_request c "/register" data;
               post_request c "/deregister" data'].
Proof.
  intros Hnew Hp Hdata Hreq.
  destruct (New_client E options w w1 c None Hnew)
    as (parsed & khPriv & khPub & hd & keyset & key & data & resp &
        H1 & _ & _ & _ & _ & _ & _ & _ & _ & Hc & _ & Hw).
  assert (Hcid : correlationID c = xid_New_String E) by now subst c.
  assert (Hurl : serverURL c = parsed) by now subst c.
  assert (Hpers : persistentSession c = false) by now subst c.
  split; [exact Hcid|]. split; [now rewrite Hurl|].
  exists data. rewrite <- Hcid in Hdata.
  rewrite (Close_sends E c w1 data' Hpers Hdata Hreq). cbn [snd send wire].
  rewrite Hw. cbn [send wire]. now rewrite <- app_assoc.
Qed.

Lemma register_then_deregister_witness :
  exists data,
    wire (snd (Close demo.client0
                 (snd (New demo.ok demo.options (demo.world0 demo.ok))))) =
    [post_request demo.client0 "/register" data;
     post_request demo.client0 "/deregister"
       (demo.bytes_of_string "9m4e2mr0ui3e8a215n4g")].
Proof.
  destruct (register_then_deregister demo.ok demo.options
              (demo.world0 demo.ok)
              (snd (New demo.ok demo.options (demo.world0 demo.ok)))
              demo.client0
              (demo.bytes_of_string "9m4e2mr0ui3e8a215n4g")
              eq_refl eq_refl eq_refl eq_refl) as (_ & _ & data & Hwire).
  exists data. exact Hwire.
Defined.

(** X8.  A client constructed with [PersistentSession] set never
    deregisters: [Close] returns nil and leaves the wire as it is, in any
    state of the process. *)
Theorem persistent_option_skips_deregister (E : Env) (options : Options)
    (w w1 w2 : World E) (c : Client E) :
  New E options w = (Some c, None, w1) ->
  PersistentSession options = true ->
  Close c w2 = (None, w2).
Proof.
  intros Hnew Hp. apply Close_persistent.
  destruct (New_client E options w w1 c None Hnew)
    as (parsed & khPriv & khPub & hd & keyset & key & data & resp & H).
  destruct H as (_ & _ & _ & _ & _ & _ & _ & _ & _ & -> & _). exact Hp.
Qed.

Lemma persistent_option_skips_deregister_witness :
  Close (demo.client_of demo.ok 7 true) (demo.world0 demo.ok)
  = (None, demo.world0 demo.ok).
Proof.
  apply (persistent_option_skips_deregister demo.ok
           {| ServerURL := "https://interact.sh"; PersistentSession := true |}
           (demo.world0 demo.ok)
           (snd (New demo.ok
                   {| ServerURL := "https://interact.sh";
                      PersistentSession := true |}
                   (demo.world0 demo.ok))));
    reflexivity.
Defined.

(** ** Further properties of the identifiers *)

(** X9.  An identifier determines what it was made from: two calls of
    [URL], by clients whose correlation ids have the same length, return
    the same string only for the same correlation id, the same Unix
    second modulo 2^32, the same counter value and the same host. *)
Theorem URL_injective (E : Env) (c c' : Client E) (now now' : Z)
    (w w' : World E) :
  String.length (correlationID c) = String.length (correlationID c') ->
  fst (URL c now w) = fst (URL c' now' w') ->
  correlationID c = correlationID c' /\
  uint32 now = uint32 now' /\
  objectIDCounter (snd (URL c now w)) = objectIDCounter (snd (URL c' now' w')) /\
  Host (serverURL c) = Host (serverURL c').
Proof.
  intros L H. rewrite !URL_identifier in H |- *. cbn [fst snd] in *.
  cbn [objectIDCounter tick_counter].
  apply identifier_inj in H; [exact H | exact L | |]; apply uint32_range.
Qed.

Lemma URL_injective_witness :
  uint32 1700000000 = uint32 (1700000000 + 2 ^ 32).
Proof.
  apply (URL_injective demo.ok demo.client0 demo.client0
           1700000000 (1700000000 + 2 ^ 32)
           (demo.world0 demo.ok) (demo.world0 demo.ok));
    reflexivity.
Defined.

Lemma identifier_ext (E : Env) (c c' : Client E) (now now' i : Z) :
  correlationID c = correlationID c' ->
  Host (serverURL c) = Host (serverURL c') ->
  uint32 now = uint32 now' ->
  identifier c now i = identifier c' now' i.
Proof.
  intros Hc Hh Hn. unfold identifier, random_bytes. now rewrite Hc, Hh, Hn.
Qed.

(** X10.  In a run of calls to [URL] by clients whose correlation ids
    have the same length, the calls number [i] and [j] return the same
    string exactly when they agree on the correlation id, on the host and
    on the Unix second modulo 2^32, and [i] and [j] differ by a multiple
    of 2^32. *)
Theorem URLs_collide_iff (E : Env) (calls : list (Client E * Z)) (w : World E)
    (i j : nat) (c c' : Client E) (now now' : Z) :
  calls !! i = Some (c, now) ->
  calls !! j = Some (c', now') ->
  String.length (correlationID c) = String.length (correlationID c') ->
  fst (URLs calls w) !! i = fst (URLs calls w) !! j <->
  correlationID c = correlationID c' /\
  Host (serverURL c) = Host (serverURL c') /\
  uint32 now = uint32 now' /\
  (Z.of_nat i - Z.of_nat j) mod 2 ^ 32 = 0.
Proof.
  intros Hi Hj L.
  rewrite (URLs_lookup calls w i c now Hi), (URLs_lookup calls w j c' now' Hj).
  split.
  - intros Heq. injection Heq as H.
    apply identifier_inj in H as (Hc & Hn & Hctr & Hh);
      [| exact L | apply uint32_range | apply uint32_range].
    repeat split; try assumption.
    unfold uint32 in Hctr. change (2 ^ 32) with 4294967296 in *.
    clear - Hctr. Z.div_mod_to_equations. lia.
  - intros (Hc & Hh & Hn & Hd). f_equal.
    rewrite (identifier_ext E c c' now now' _ Hc Hh Hn). f_equal.
    unfold uint32. change (2 ^ 32) with 4294967296 in *.
    clear - Hd. Z.div_mod_to_equations. lia.
Qed.

Lemma URLs_collide_iff_witness :
  fst (URLs [(demo.client0, 1700000000); (demo.client0, 1700000000)]
            (demo.world0 demo.ok)) !! 0%nat
  <> fst (URLs [(demo.client0, 1700000000); (demo.client0, 1700000000)]
               (demo.world0 demo.ok)) !! 1%nat.
Proof.
  intros H.
  apply (URLs_collide_iff demo.ok
           [(demo.client0, 1700000000); (demo.client0, 1700000000)]
           (demo.world0 demo.ok) 0 1 demo.client0 demo.client0
           1700000000 1700000000 eq_refl eq_refl eq_refl) in H.
  destruct H as (_ & _ & _ & H). discriminate H.
Defined.

(** ** Further properties of the polling lifecycle *)

Section Lifecycle_more.

Context {E : Env}.

Implicit Types p : Process E.






Lemma transition_tickers p p' :
  tickers_follow (goroutines p) -> transition p p' ->
  tickers_follow (goroutines p').
Proof.
  unfold tickers_follow. intros Hinv [Hcall|Hstep].
  - destruct Hcall as [p now Hp | p d cb p' Hp Hs | p d cb msg Hp Hs
                      | p p' Hp Hs | p msg Hp Hs | p Hp];
      cbn [goroutines set_world crash]; try exact Hinv.
    + unfold StartPolling in Hs. destruct (d <=? 0); [discriminate|].
      injection Hs as <-. cbn [goroutines]. apply Forall_app. split; [exact Hinv|].
      apply Forall_singleton. cbn. split; discriminate.
    + destruct (StopPolling_Done p p' Hs) as (_ & _ & -> & _). exact Hinv.
  - assert (Hins : forall k g g',
               goroutines p !! k = Some g ->
               (at_pc g' = Returned <-> stopped (ticker g') = true) ->
               Forall (fun g => at_pc g = Returned <-> stopped (ticker g) = true)
                      (<[k := g']> (goroutines p))).
    { intros k g g' Hk Hg'. rewrite Forall_lookup in Hinv |- *.
      intros i x Hi. destruct (decide (k = i)) as [->|Hne].
      - rewrite list_lookup_insert_eq in Hi by (eapply lookup_lt_Some, Hk).
        now injection Hi as <-.
      - rewrite list_lookup_insert_ne in Hi by exact Hne. eapply Hinv, Hi. }
    destruct Hstep as [p k g Hp Hk Hs | p k g Hp Hk Hpc Hc | p k g Hp Hk Hpc Hq
                      | p k g w' Hp Hk Hpc Hrun | p k g msg Hp Hk Hpc Hrun];
      cbn [goroutines set_goroutine]; try exact Hinv;
      pose proof (proj1 (Forall_lookup _ _) Hinv k g Hk) as Hg;
      cbv beta in Hg; apply (Hins k g); try exact Hk; cbn.
    + rewrite Hs in Hg. split; [intros H; apply Hg in H; discriminate
                                | discriminate].
    + split; [discriminate|]. intros H. apply Hg in H. congruence.
    + split; reflexivity.
    + split; [discriminate|]. intros H. apply Hg in H. congruence.
Qed.

End Lifecycle_more.



(** X11.  After [StartPolling] returned, and whatever the timer and the
    goroutines have done since, [StopPolling] returns normally: it closes
    the channel and touches neither the goroutines nor the world.  This
    holds also when an earlier [StopPolling] had closed the previous
    channel. *)
Theorem StopPolling_after_StartPolling (E : Env) (duration : Z)
    (cb : InteractionCallback) (p p1 p2 : Process E) :
  StartPolling duration cb p = Done p1 ->
  rtc step p1 p2 ->
  exists p3,
    StopPolling p2 = Done p3 /\
    quitChan (client p3) = Some ChanClosed /\
    goroutines p3 = goroutines p2 /\
    world p3 = world p2.
Proof.
  intros Hstart Hsteps.
  destruct (StartPolling_Done duration cb p p1 Hstart) as (Hopen & _).
  unfold StopPolling. rewrite (steps_client p1 p2 Hsteps), Hopen. cbn.
  eexists. repeat split.
Qed.

Lemma StopPolling_after_StartPolling_witness :
  exists p3 : Process demo.ok,
    StopPolling demo.in_flight = Done p3 /\
    quitChan (client p3) = Some ChanClosed /\
    goroutines p3 = goroutines demo.in_flight /\
    world p3 = world demo.in_flight.
Proof.
  apply (StopPolling_after_StartPolling demo.ok 1000 1%nat
           (fresh demo.client0 (demo.world0 demo.ok)) demo.started
           demo.in_flight eq_refl).
  apply (rtc_l _ _ demo.ticked).
  - exact (step_timer demo.started 0 (demo.goroutine false false AtSelect)
             eq_refl eq_refl eq_refl).
  - apply rtc_once.
    exact (step_select_tick demo.ticked 0 (demo.goroutine true false AtSelect)
             eq_refl eq_refl eq_refl eq_refl).
Defined.



(** X13.  In every run from a process where it holds, and so in every
    run from a fresh client, a ticker is stopped exactly when its
    goroutine has returned: no goroutine returns without stopping its
    ticker, and no ticker of a polling goroutine is stopped. *)
Theorem ticker_stopped_iff_returned (E : Env) (p p' : Process E) :
  tickers_follow (goroutines p) ->
  rtc transition p p' ->
  tickers_follow (goroutines p').
Proof.
  intros Hinv Hrun. induction Hrun as [p|p p1 p2 Ht _ IH]; [exact Hinv|].
  apply IH. exact (transition_tickers p p1 Hinv Ht).
Qed.

Lemma ticker_stopped_iff_returned_witness :
  tickers_follow (goroutines demo.returned).
Proof.
  apply (ticker_stopped_iff_returned demo.ok
           (fresh demo.client0 (demo.world0 demo.ok)) demo.returned).
  - constructor.
  - apply (rtc_l _ _ demo.started).
    { left. exact (call_StartPolling demo.ok
                     (fresh demo.client0 (demo.world0 demo.ok))
                     1000 1%nat demo.started eq_refl eq_refl). }
    apply (rtc_l _ _ demo.stopped_idle).
    { left. exact (call_StopPolling demo.ok demo.started demo.stopped_idle
                     eq_refl eq_refl). }
    apply rtc_once. right.
    exact (step_select_quit demo.stopped_idle 0
             (demo.goroutine false false AtSelect)
             eq_refl eq_refl eq_refl eq_refl).
Defined.

(** ** Further properties of the poll tick *)

(** A tick that fails ends where it sent its request, or where it
    started when the request was not built. *)
Lemma poll_fails_Done (E : Env) (c : Client E) (cb : InteractionCallback)
    (w : World E) :
  poll_fails E c w ->
  getInteractions c cb w = Done w \/
  getInteractions c cb w = Done (send (poll_request c) w).
Proof.
  intros Hfail. unfold getInteractions, NewRequest.
  change (poll_address c) with (ReqURL (poll_request c)).
  destruct (NewRequest_err E "GET" (ReqURL (poll_request c))) as [e|] eqn:Hreq;
    [now left|].
  change {| Method := "GET"; ReqURL := ReqURL (poll_request c);
            ReqBody := None; ContentLength := 0 |} with (poll_request c).
  right. destruct Hfail as [Hbad|[[e He]|(resp & Hresp & Hcase)]].
  - contradiction.
  - now rewrite He.
  - rewrite Hresp. destruct Hcase as [Hstatus|[e He]].
    + destruct (Z.eqb_spec (StatusCode resp) 200) as [Heq|_];
        [contradiction | reflexivity].
    + destruct (negb (StatusCode resp =? 200)); [reflexivity|].
      now rewrite He.
Qed.

(** A tick whose response decodes, in full. *)
Lemma getInteractions_ok (E : Env) (c : Client E) (cb : InteractionCallback)
    (w : World E) (hd : HybridDecrypt E) (resp : Response)
    (response : PollResponse) :
  decrypter c = Some hd ->
  NewRequest_err E "GET" (ReqURL (poll_request c)) = None ->
  httpClient_Do E (wire w) (poll_request c) = inl resp ->
  StatusCode resp = 200 ->
  Decode_PollResponse E (Body resp) = inl response ->
  getInteractions c cb w =
  Done {| objectIDCounter := objectIDCounter w;
          wire := wire w ++ [poll_request c];
          fired := fired w
                     ++ map (pair cb) (omap (decoded E hd) (Data response)) |}.
Proof.
  intros Hd Hreq Hdo Hstatus Hdecode. unfold getInteractions.
  rewrite (getInteractions_request E c Hreq), Hdo, Hstatus.
  cbn [Z.eqb Pos.eqb negb]. rewrite Hdecode.
  now rewrite (deliver_fired E c cb hd _ _ Hd).
Qed.

(** X14.  A failing tick does not end the loop: when the poll fails (the
    request is not built, the transport fails, the status is not 200 or
    the body does not decode), the goroutine goes back to its select with
    its ticker as it was, the process has not panicked and the callback
    log is unchanged. *)
Theorem failed_tick_resumes (E : Env) (p : Process E) (k : nat)
    (g : Goroutine) :
  panicked p = None ->
  goroutines p !! k = Some g ->
  at_pc g = InGetInteractions ->
  poll_fails E (client p) (world p) ->
  exists p',
    step p p' /\
    panicked p' = None /\
    fired (world p') = fired (world p) /\
    client p' = client p /\
    goroutines p' !! k =
      Some {| ticker := ticker g; callback := callback g; at_pc := AtSelect |}.
Proof.
  intros Hp Hk Hpc Hfail.
  assert (Hlen : (k < length (goroutines p))%nat)
    by (eapply lookup_lt_Some, Hk).
  destruct (poll_fails_Done E (client p) (callback g) (world p) Hfail)
    as [Hrun|Hrun];
    eexists; (split; [exact (step_getInteractions p k g _ Hp Hk Hpc Hrun)|]);
    cbn [panicked world client goroutines fired send];
    rewrite list_lookup_insert_eq by exact Hlen; auto.
Qed.

Lemma failed_tick_resumes_witness :
  exists p' : Process demo.refusing,
    step {| client := demo.client_of demo.refusing 7 false;
            goroutines := [demo.goroutine false false InGetInteractions];
            world := demo.world0 demo.refusing;
            panicked := None |} p' /\
    panicked p' = None /\
    fired (world p') = [] /\
    client p' = demo.client_of demo.refusing 7 false /\
    goroutines p' !! 0%nat = Some (demo.goroutine false false AtSelect).
Proof.
  apply (failed_tick_resumes demo.refusing
           {| client := demo.client_of demo.refusing 7 false;
              goroutines := [demo.goroutine false false InGetInteractions];
              world := demo.world0 demo.refusing;
              panicked := None |}
           0 (demo.goroutine false false InGetInteractions));
    try reflexivity.
  right. right. eexists. split; [reflexivity|]. left. discriminate.
Defined.

(** X15.  Ticks add up and nothing is deduplicated: after two ticks whose
    responses decode, the callback log holds what it held, then the
    interactions of the first response in order, then those of the second,
    and the wire holds the poll request twice; a blob the server sends in
    both responses is reported twice. *)
Theorem ticks_compose (E : Env) (c : Client E) (cb : InteractionCallback)
    (w : World E) (hd : HybridDecrypt E) (resp1 resp2 : Response)
    (response1 response2 : PollResponse) :
  decrypter c = Some hd ->
  NewRequest_err E "GET" (ReqURL (poll_request c)) = None ->
  httpClient_Do E (wire w) (poll_request c) = inl resp1 ->
  StatusCode resp1 = 200 ->
  Decode_PollResponse E (Body resp1) = inl response1 ->
  httpClient_Do E (wire w ++ [poll_request c]) (poll_request c) = inl resp2 ->
  StatusCode resp2 = 200 ->
  Decode_PollResponse E (Body resp2) = inl response2 ->
  exists w1 w2,
    getInteractions c cb w = Done w1 /\
    getInteractions c cb w1 = Done w2 /\
    wire w2 = wire w ++ [poll_request c; poll_request c] /\
    fired w2 =
      fired w ++ map (pair cb) (omap (decoded E hd) (Data response1))
              ++ map (pair cb) (omap (decoded E hd) (Data response2)).
Proof.
  intros Hd Hreq Hdo1 Hs1 Hdec1 Hdo2 Hs2 Hdec2.
  pose proof (getInteractions_ok E c cb w hd resp1 response1
                Hd Hreq Hdo1 Hs1 Hdec1) as H1.
  pose proof (getInteractions_ok E c cb
                {| objectIDCounter := objectIDCounter w;
                   wire := wire w ++ [poll_request c];
                   fired := fired w ++ map (pair cb)
                              (omap (decoded E hd) (Data response1)) |}
                hd resp2 response2 Hd Hreq Hdo2 Hs2 Hdec2) as H2.
  do 2 eexists. split; [exact H1|]. split; [exact H2|].
  cbn [wire fired]. split; now rewrite <- app_assoc.
Qed.

Lemma ticks_compose_witness :
  exists w1 w2 : World demo.ok,
    getInteractions demo.client0 1%nat (demo.world0 demo.ok) = Done w1 /\
    getInteractions demo.client0 1%nat w1 = Done w2 /\
    wire w2 = [poll_request demo.client0; poll_request demo.client0] /\
    fired w2 = [(1%nat, 9 : Interaction demo.ok); (1%nat, 9 : Interaction demo.ok)].
Proof.
  apply (ticks_compose demo.ok demo.client0 1%nat (demo.world0 demo.ok) 7
           {| StatusCode := 200; Body := [0; 5; 7; 9] |}
           {| StatusCode := 200; Body := [0; 5; 7; 9] |}
           {| Data := [[0; 5]; [7; 9]] |} {| Data := [[0; 5]; [7; 9]] |});
    reflexivity.
Defined.
